(** * dependency_graph.py: a shallow embedding of the graph construction engine

    The development follows [src/dependency_graph.py]: the two module-level
    helpers [filename_normalize] and [filename_extension], the include
    pattern of [DependencyGraph.include_regex], and the methods
    [find_files], [find_neighbors], [create_graph] and [run].  The output
    file name ([auto_name]), the rendering and the command line are left out.

    Text (paths and decoded file contents) is modelled as [string], i.e.
    sequences of code points below 256.  Python's [set] is a [gset string],
    the [proxy_nodes] dict a [gmap string string]; the insertion-ordered
    [folder_to_files] dict is an association list because its iteration order
    decides the order of the emitted statements.  The graphviz [Digraph] is
    the list of the statements issued on it.  Reading a file may raise, so
    [find_neighbors] and everything above it return an [option].  The class
    attributes [base_blacklist] and [base_groups], which [run] extends in
    place, are threaded through [run] as an explicit state. *)

From Stdlib Require Import ZArith Ascii String List Lia.
From stdpp Require Import base option list gmap strings.

Local Open Scope string_scope.
Local Open Scope list_scope.

(** ** Python string primitives used by the program *)

Module Py.

Fixpoint take (n : nat) (s : string) : string :=
  match n, s with
  | S n', String a s' => String a (take n' s')
  | _, _ => EmptyString
  end.

Fixpoint drop (n : nat) (s : string) : string :=
  match n, s with
  | S n', String _ s' => drop n' s'
  | _, _ => s
  end.

(** A slice bound as Python normalises it: negative bounds count from the
    end, and everything is clipped to [0 .. len]. *)
Definition clip (len : nat) (i : Z) : nat :=
  let n := Z.of_nat len in
  Z.to_nat (if (i <? 0)%Z then Z.max 0 (i + n) else Z.min i n).

(** [s[:e]] *)
Definition slice_to (s : string) (e : Z) : string :=
  take (clip (String.length s) e) s.

(** [s[b:]] *)
Definition slice_from (s : string) (b : Z) : string :=
  drop (clip (String.length s) b) s.

(** [s.rfind(c)] for a one-character needle: the highest index holding
    [c], or [-1]. *)
Fixpoint rfind (s : string) (c : ascii) : Z :=
  match s with
  | EmptyString => (-1)%Z
  | String a s' =>
      let r := rfind s' c in
      if (0 <=? r)%Z then (r + 1)%Z
      else if Ascii.eqb a c then 0%Z else (-1)%Z
  end.

(** [s.startswith(pre)] *)
Fixpoint startswith (s pre : string) {struct pre} : bool :=
  match pre with
  | EmptyString => true
  | String b pre' =>
      match s with
      | EmptyString => false
      | String a s' => Ascii.eqb a b && startswith s' pre'
      end
  end.

(** [s.endswith(c)] for a one-character suffix. *)
Fixpoint endswith (s : string) (c : ascii) : bool :=
  match s with
  | EmptyString => false
  | String a EmptyString => Ascii.eqb a c
  | String _ s' => endswith s' c
  end.

(** [s.rstrip(c)] for a one-character set. *)
Fixpoint rstrip (s : string) (c : ascii) : string :=
  match s with
  | EmptyString => EmptyString
  | String a s' =>
      match rstrip s' c with
      | EmptyString => if Ascii.eqb a c then EmptyString else String a EmptyString
      | r => String a r
      end
  end.

(** [c not in s] *)
Fixpoint lacks (s : string) (c : ascii) : bool :=
  match s with
  | EmptyString => true
  | String a s' => negb (Ascii.eqb a c) && lacks s' c
  end.

(** [s == c * len(s)] *)
Fixpoint all_char (s : string) (c : ascii) : bool :=
  match s with
  | EmptyString => true
  | String a s' => Ascii.eqb a c && all_char s' c
  end.

Definition is_empty (s : string) : bool :=
  match s with EmptyString => true | _ => false end.

End Py.

(** ** [os.path] on a POSIX system (the separator is the slash) *)

Module PosixPath.

Definition sep : ascii := "/"%char.

(** [os.path.basename]: everything after the last separator. *)
Definition basename (p : string) : string :=
  Py.slice_from p (Py.rfind p sep + 1).

(** [os.path.dirname]: everything up to the last separator, with the
    trailing separators removed unless the head consists of separators
    only. *)
Definition dirname (p : string) : string :=
  let head := Py.slice_to p (Py.rfind p sep + 1) in
  if negb (Py.is_empty head) && negb (Py.all_char head sep)
  then Py.rstrip head sep
  else head.

(** [os.path.join] of two components. *)
Definition join (a b : string) : string :=
  if Py.startswith b "/" then b
  else if Py.is_empty a || Py.endswith a sep then a +:+ b
  else a +:+ "/" +:+ b.

End PosixPath.

(** ** Helpers of the module *)

(** [filename_normalize(path)]: the name of the node that represents the
    file at [path]. *)
Definition filename_normalize (path : string) : string :=
  let filename := PosixPath.basename path in
  let end_ := Py.rfind filename "."%char in
  let end_ := if (end_ =? -1)%Z then Z.of_nat (String.length filename) else end_ in
  Py.slice_to filename end_.

(** [filename_extension(path)]: [path[path.rfind('.'):]]. *)
Definition filename_extension (path : string) : string :=
  Py.slice_from path (Py.rfind path "."%char).

(** ** The include pattern

    [include_regex] reads: the literal #include, then the whitespace class
    one or more times, then one character of the opening class (double quote
    or less-than; the source lists the double quote twice), then a greedy
    any-character group, then one character of the closing class (double
    quote or greater-than).  It is used through [findall].
    The whitespace class and the opening class are disjoint, so giving back
    whitespace never helps: a match at a position reads the literal, the
    whole whitespace run (at least one character), one opening character,
    and then, [.*] being greedy and stopping at a line feed, everything up to
    the LAST closing character of the line.  [findall] scans left to right,
    resumes after each match, and returns the captured groups. *)

Module Regex.

Definition quote : ascii := "034"%char.
Definition newline : ascii := "010"%char.

(** [\s] on code points below 256. *)
Definition is_space (a : ascii) : bool :=
  let n := N_of_ascii a in
  ((9 <=? n) && (n <=? 13) || (28 <=? n) && (n <=? 32)
   || (n =? 133) || (n =? 160))%N.

(** The opening class: double quote or less-than. *)
Definition is_open (a : ascii) : bool :=
  Ascii.eqb a quote || Ascii.eqb a "<"%char.

(** The closing class: double quote or greater-than. *)
Definition is_close (a : ascii) : bool :=
  Ascii.eqb a quote || Ascii.eqb a ">"%char.

Fixpoint strip_literal (lit s : string) : option string :=
  match lit with
  | EmptyString => Some s
  | String b lit' =>
      match s with
      | EmptyString => None
      | String a s' => if Ascii.eqb a b then strip_literal lit' s' else None
      end
  end.

(** The run of whitespace at the head of [s]: its length and what follows. *)
Fixpoint skip_spaces (s : string) : nat * string :=
  match s with
  | String a s' =>
      if is_space a then let '(k, r) := skip_spaces s' in (S k, r)
      else (0, s)
  | EmptyString => (0, s)
  end.

(** Index of the last closing character before the first line feed. *)
Fixpoint last_close (s : string) : option nat :=
  match s with
  | EmptyString => None
  | String a s' =>
      if Ascii.eqb a newline then None
      else match last_close s' with
           | Some j => Some (S j)
           | None => if is_close a then Some 0 else None
           end
  end.

(** A match anchored at the head of [s]: the captured group and the number
    of characters the whole match spans. *)
Definition match_here (s : string) : option (string * nat) :=
  match strip_literal "#include" s with
  | None => None
  | Some r1 =>
      match skip_spaces r1 with
      | (0, _) => None
      | (S k, String a r3) =>
          if is_open a then
            match last_close r3 with
            | Some j => Some (Py.take j r3, 8 + S k + 1 + j + 1)
            | None => None
            end
          else None
      | (S _, EmptyString) => None
      end
  end.

(** [findall]; [skip] counts the characters still covered by the previous
    match. *)
Fixpoint findall_from (skip : nat) (s : string) : list string :=
  match s with
  | EmptyString => []
  | String _ s' =>
      match skip with
      | S k => findall_from k s'
      | 0 =>
          match match_here s with
          | Some (cap, n) => cap :: findall_from (Nat.pred n) s'
          | None => findall_from 0 s'
          end
      end
  end.

Definition findall (s : string) : list string := findall_from 0 s.

(** A text without line feed and without closing character. *)
Fixpoint plain (s : string) : bool :=
  match s with
  | EmptyString => true
  | String a s' => negb (Ascii.eqb a newline) && negb (is_close a) && plain s'
  end.

End Regex.

(** Text with a double quote in it is built from [Regex.quote]. *)
Definition q : string := String Regex.quote EmptyString.
Definition nl : string := String Regex.newline EmptyString.


(** ** The graph handed to the renderer

    A [Digraph] of the graphviz package is a [strict] flag, default node
    attributes and a body of statements in the order they were issued:
    [graph.node(name, ...)] appends a node statement and
    [graph.edge(tail_name, head_name, ...)] an edge statement. *)

Inductive stmt : Type :=
| Node (name : string) (color : option string)
| Edge (tail head : string) (dir color : string).

Global Instance stmt_eq_dec : EqDecision stmt.
Proof. solve_decision. Defined.

Record Digraph : Type := mkDigraph {
  strict : bool;
  node_attr : list (string * string);
  format : string;
  body : list stmt
}.

Global Instance Digraph_eq_dec : EqDecision Digraph.
Proof. solve_decision. Defined.

(** The node statements and the edge statements of a body. *)
Definition node_stmts (b : list stmt) : list (string * option string) :=
  flat_map (fun s => match s with Node n c => [(n, c)] | Edge _ _ _ _ => [] end) b.

Definition edge_stmts (b : list stmt) : list stmt :=
  flat_map (fun s => match s with Edge _ _ _ _ => [s] | Node _ _ => [] end) b.

(** The ordered pairs (tail, head) of the edges of a body. *)
Definition edge_pairs (b : list stmt) : list (string * string) :=
  flat_map (fun s => match s with Edge t h _ _ => [(t, h)] | Node _ _ => [] end) b.

(** ** Class properties of [DependencyGraph] *)

Definition valid_headers : list string * string := ([".h"; ".hpp"], "red").
Definition valid_sources : list string * string := ([".c"; ".cc"; ".cpp"], "blue").
Definition valid_extensions : list string := valid_headers.1 ++ valid_sources.1.

(** [folder_to_files[k].append(v)] on the insertion-ordered defaultdict. *)
Fixpoint dict_append (d : list (string * list string)) (k v : string)
  : list (string * list string) :=
  match d with
  | [] => [(k, [v])]
  | (k', l) :: d' =>
      if String.eqb k' k then (k', l ++ [v]) :: d'
      else (k', l) :: dict_append d' k v
  end.

(** The local variables of [create_graph] after the first loop. *)
Record scan_state : Type := mkScan {
  g_body : list stmt;
  nodes : gset string;
  proxy_nodes : gmap string string;
  folder_to_files : list (string * list string)
}.

Definition scan_init : scan_state :=
  {| g_body := []; nodes := ∅; proxy_nodes := ∅; folder_to_files := [] |}.

Definition group_name (group : string) : string :=
  "group - " +:+ filename_normalize group.

(** The colour of the edges a file emits, from its extension. *)
Definition edge_color (ext : string) : string :=
  let color := "black" in
  let color := if bool_decide (ext ∈ valid_headers.1) then valid_headers.2 else color in
  let color := if bool_decide (ext ∈ valid_sources.1) then valid_sources.2 else color in
  color.

(** The body of the loop over [neighbors]. *)
Definition add_neighbor (nodes : gset string) (proxy_nodes : gmap string string)
    (node color : string) (body : list stmt) (neighbor : string) : list stmt :=
  if bool_decide (neighbor ≠ node) then
    if bool_decide (neighbor ∈ nodes) then
      body ++ [Edge node neighbor "back" color]
    else
      match proxy_nodes !! neighbor with
      | Some proxy => body ++ [Edge node proxy "back" color]
      | None => body
      end
  else body.

Section Instance.

(** [self.groups], and the file system as [codecs.open(path).read()] sees
    it: the decoded text of a file, or [None] when opening it raises. *)
Variable groups : list string.
Variable read : string -> option string.

(** [find_neighbors(path)] *)
Definition find_neighbors (path : string) : option (list string) :=
  code ← read path;
  Some (map filename_normalize (Regex.findall code)).

(** The body of [for group in self.groups] in the first loop; the boolean
    is [in_group]. *)
Definition register_group (path : string) (acc : scan_state * bool) (group : string)
  : scan_state * bool :=
  if Py.startswith path group then
    let st := acc.1 in
    let gn := group_name group in
    ({| g_body := g_body st ++ [Node gn (Some "lightgreen")];
        nodes := {[gn]} ∪ nodes st;
        proxy_nodes := <[filename_normalize path := gn]> (proxy_nodes st);
        folder_to_files := folder_to_files st |}, true)
  else acc.

(** The body of [for path in files] in the first loop. *)
Definition register_file (st : scan_state) (path : string) : scan_state :=
  let st0 := {| g_body := g_body st; nodes := nodes st;
                proxy_nodes := proxy_nodes st;
                folder_to_files :=
                  dict_append (folder_to_files st) (PosixPath.dirname path) path |} in
  let '(st1, in_group) := fold_left (register_group path) groups (st0, false) in
  if in_group then st1
  else {| g_body := g_body st1;
          nodes := {[filename_normalize path]} ∪ nodes st1;
          proxy_nodes := proxy_nodes st1;
          folder_to_files := folder_to_files st1 |}.

(** The first loop: nodes and groups. *)
Definition find_nodes (files : list string) : scan_state :=
  fold_left register_file files scan_init.

(** The [in_group] flag the second loop computes for a folder. *)
Definition folder_in_group (folder : string) : bool :=
  fold_left (fun in_group group =>
               if Py.startswith folder group then true else in_group)
            groups false.

(** The body of [for path in folder_to_files[folder]]; a file that cannot
    be opened aborts the construction. *)
Definition process_file (nodes : gset string) (proxy_nodes : gmap string string)
    (body : list stmt) (path : string) : option (list stmt) :=
  let color := edge_color (filename_extension path) in
  let node := filename_normalize path in
  let body := body ++ [Node node None] in
  neighbors ← find_neighbors path;
  Some (fold_left (add_neighbor nodes proxy_nodes node color) neighbors body).

Fixpoint process_files (nodes : gset string) (proxy_nodes : gmap string string)
    (body : list stmt) (paths : list string) : option (list stmt) :=
  match paths with
  | [] => Some body
  | path :: rest =>
      body' ← process_file nodes proxy_nodes body path;
      process_files nodes proxy_nodes body' rest
  end.

(** The second loop: edges. *)
Fixpoint process_folders (nodes : gset string) (proxy_nodes : gmap string string)
    (body : list stmt) (folders : list (string * list string)) : option (list stmt) :=
  match folders with
  | [] => Some body
  | (folder, paths) :: rest =>
      if folder_in_group folder then
        process_folders nodes proxy_nodes body rest
      else
        body' ← process_files nodes proxy_nodes body paths;
        process_folders nodes proxy_nodes body' rest
  end.

(** [create_graph(files, strict)] *)
Definition create_graph (files : list string) (strict : bool) : option Digraph :=
  let st := find_nodes files in
  body ← process_folders (nodes st) (proxy_nodes st) (g_body st) (folder_to_files st);
  Some {| strict := strict;
          node_attr := [("color", "lightblue2"); ("style", "filled")];
          format := "pdf";
          body := body |}.

End Instance.

(** ** File discovery and [run] *)

(** What [os.scandir] reports below a directory. *)
#[warnings="-register-all"]
Inductive entry : Type :=
| File (name : string)
| Dir (name : string) (children : list entry).

(** The contribution of one directory entry to [find_files(path, recursive)];
    the recursive call always has [recursive=True]. *)
Fixpoint find_entry (blacklist : list string) (recursive : bool) (path : string)
    (e : entry) : list string :=
  match e with
  | Dir name children =>
      let p := PosixPath.join path name in
      if recursive then
        if bool_decide (p ∈ blacklist) then []
        else flat_map (find_entry blacklist true p) children
      else if bool_decide (filename_extension p ∈ valid_extensions) then [p] else []
  | File name =>
      let p := PosixPath.join path name in
      if bool_decide (filename_extension p ∈ valid_extensions) then [p] else []
  end.

Definition find_files (blacklist : list string) (recursive : bool) (path : string)
    (entries : list entry) : list string :=
  flat_map (find_entry blacklist recursive path) entries.

(** The two class attributes [run] extends in place. *)
Record class_state : Type := mkClass {
  base_blacklist : list string;
  base_groups : list string
}.

Definition class_init : class_state :=
  {| base_blacklist := [".git"; ".settings"; ".vscode"]; base_groups := [] |}.

Record arguments : Type := mkArgs {
  arg_blacklist : list (list string);
  arg_group : list (list string);
  arg_strict : bool;
  arg_format : string
}.

(** [run(args)] up to the rendering: the class attributes it leaves behind
    and the graph it hands to the renderer. [tree] is the content of the
    root directory. *)
Definition run (root : string) (tree : list entry) (read : string -> option string)
    (cls : class_state) (args : arguments) : class_state * option Digraph :=
  let added_blacklist := concat (arg_blacklist args) in
  let base_blacklist' := base_blacklist cls ++ added_blacklist in
  let blacklist := map (PosixPath.join root) base_blacklist' in
  let added_groups := concat (arg_group args) in
  let base_groups' := base_groups cls ++ added_groups in
  let groups := map (PosixPath.join root) base_groups' in
  let files := find_files blacklist true root tree in
  let graph :=
    g ← create_graph groups read files (arg_strict args);
    Some {| strict := strict g; node_attr := node_attr g;
            format := arg_format args; body := body g |} in
  ({| base_blacklist := base_blacklist'; base_groups := base_groups' |}, graph).

(** ** File systems and include lines given explicitly *)

(** A file system given as a list of (path, text) pairs. *)
Fixpoint read_from (fs : list (string * string)) (path : string) : option string :=
  match fs with
  | [] => None
  | (p, text) :: fs' => if String.eqb p path then Some text else read_from fs' path
  end.

Definition include_quoted (name : string) : string :=
  "#include " +:+ q +:+ name +:+ q +:+ nl.

(** An include line with any opening and closing character. *)
Definition include_line (open close : ascii) (name : string) : string :=
  "#include " +:+ String open name +:+ String close nl.


(** ** Derived views used to state the properties *)

(** The configured groups whose path is a literal prefix of [path], in
    configured order. *)
Definition matching (groups : list string) (path : string) : list string :=
  filter (λ group, Py.startswith path group = true) groups.

(** The node statement issued for a group. *)
Definition proxy_stmt (group : string) : stmt :=
  Node (group_name group) (Some "lightgreen").

(** The edge the loop over [neighbors] issues for one target, if any. *)
Definition neighbor_edge (nodes : gset string) (proxy_nodes : gmap string string)
    (node color neighbor : string) : list stmt :=
  add_neighbor nodes proxy_nodes node color [] neighbor.

(** The statements one processed file issues. *)
Definition file_stmts (read : string -> option string)
    (nodes : gset string) (proxy_nodes : gmap string string) (path : string)
  : option (list stmt) :=
  neighbors ← find_neighbors read path;
  Some (Node (filename_normalize path) None
        :: flat_map (neighbor_edge nodes proxy_nodes (filename_normalize path)
                       (edge_color (filename_extension path))) neighbors).

(** The files the second loop opens, in the order it opens them. *)
Definition processed (groups : list string) (folders : list (string * list string))
  : list string :=
  flat_map (fun kv => if folder_in_group groups kv.1 then [] else kv.2) folders.

(** The (folder, path) pairs a folder dictionary holds. *)
Definition dict_pairs (d : list (string * list string)) : list (string * string) :=
  flat_map (λ kv, map (λ p, (kv.1, p)) kv.2) d.

(** Two states of the first loop that agree up to the order and the
    multiplicity of the statements issued so far. *)
Definition same_scan (st st' : scan_state) : Prop :=
  nodes st = nodes st' ∧ proxy_nodes st = proxy_nodes st' ∧
  folder_to_files st = folder_to_files st' ∧
  ∀ s, s ∈ g_body st ↔ s ∈ g_body st'.

(** ** Concrete trees *)

(** One ungrouped directory: [a.h] includes [b.h], [b.h] includes nothing. *)
Definition ab_files : list string := ["./a.h"; "./b.h"].
Definition ab_read : string → option string :=
  read_from [("./a.h", include_quoted "b.h"); ("./b.h", "")].

(** A directory [lib] with [x.c] (including [y.h]) and [y.h], and [main.c]
    outside of it (including [x.h]). *)
Definition lib_files : list string := ["./lib/x.c"; "./lib/y.h"; "./main.c"].
Definition lib_read : string → option string :=
  read_from [("./lib/x.c", include_quoted "y.h"); ("./lib/y.h", "");
             ("./main.c", include_quoted "x.h")].

(** The same tree after [x.c] was edited to include [main.h] as well. *)
Definition lib_read_edited : string → option string :=
  read_from [("./lib/x.c", include_quoted "y.h" +:+ include_quoted "main.h");
             ("./lib/y.h", ""); ("./main.c", include_quoted "x.h")].


(** Nested groups [lib] and [lib/sub] over [lib/sub/x.h]. *)
Definition nested_groups : list string := ["./lib"; "./lib/sub"].
Definition nested_files : list string := ["./lib/sub/x.h"; "./main.c"].
Definition nested_read : string → option string :=
  read_from [("./lib/sub/x.h", ""); ("./main.c", include_quoted "x.h")].

(** A header whose base name is the name of a group node. *)
Definition clash_files : list string := ["./group - lib.h"; "./lib/x.h"].
Definition clash_read : string → option string :=
  read_from [("./group - lib.h", include_quoted "x.h"); ("./lib/x.h", "")].

(** An include line followed by a comment that quotes another name. *)
Definition commented_include : string :=
  "#include " +:+ q +:+ "b.h" +:+ q +:+ " // see " +:+ q +:+ "c.h" +:+ q +:+ nl.
Definition commented_files : list string := ["./a.c"; "./b.h"; "./c.h"].
Definition commented_read : string → option string :=
  read_from [("./a.c", commented_include); ("./b.h", ""); ("./c.h", "")].

(** A header that includes a system header and a project header. *)
Definition system_files : list string := ["./a.h"; "./b.h"].
Definition system_read : string → option string :=
  read_from [("./a.h", "#include <stdio.h>" +:+ nl +:+ include_quoted "b.h");
             ("./b.h", "")].

(** ** Views used by the further properties *)

(** A name [os.scandir] can report for a directory entry: not empty and
    without separator. *)
Definition scandir_name (name : string) : bool :=
  negb (Py.is_empty name) && Py.lacks name PosixPath.sep.

(** A tree all of whose entries carry such names. *)
Fixpoint scandir_tree (e : entry) : bool :=
  match e with
  | File name => scandir_name name
  | Dir name children => scandir_name name && forallb scandir_tree children
  end.

(** The arguments of two runs put together: the lists of the first run
    followed by those of the second, the flags of the second. *)
Definition merge_arguments (a1 a2 : arguments) : arguments :=
  {| arg_blacklist := arg_blacklist a1 ++ arg_blacklist a2;
     arg_group := arg_group a1 ++ arg_group a2;
     arg_strict := arg_strict a2;
     arg_format := arg_format a2 |}.

(** The edges a processed file contributes, in the order of its include
    directives (nothing when the file cannot be read). *)
Definition file_edges (read : string → option string)
    (nodes : gset string) (proxy_nodes : gmap string string) (path : string)
  : list stmt :=
  match read path with
  | Some code =>
      flat_map (neighbor_edge nodes proxy_nodes (filename_normalize path)
                  (edge_color (filename_extension path)))
               (map filename_normalize (Regex.findall code))
  | None => []
  end.

(** The discovered files whose folder no group captures, in discovery
    order. *)
Definition uncaptured (groups files : list string) : list string :=
  filter (λ p, folder_in_group groups (PosixPath.dirname p) = false) files.

(** A text made of include lines, each with its own opening and closing
    character. *)
Definition include_lines (lines : list (ascii * ascii * string)) : string :=
  fold_right (λ l rest, include_line l.1.1 l.1.2 l.2 +:+ rest) EmptyString lines.

(** An angle-bracketed system header and a quoted header with a directory
    part. *)
Definition angle_and_quoted_lines : list (ascii * ascii * string) :=
  [("<"%char, ">"%char, "stdio.h"); (Regex.quote, Regex.quote, "inc/b.h")].

(** A group [lib] and a source file outside of it that includes a header
    named as the node of the group. *)
Definition group_named_files : list string := ["./lib/x.h"; "./main.c"].
Definition group_named_read : string → option string :=
  read_from [("./lib/x.h", ""); ("./main.c", include_quoted "group - lib.h")].

(** * Properties *)

(** ** Strings *)

Local Arguments String.append !_ _ / : simpl nomatch.
Local Arguments group_name : simpl never.
Local Arguments filename_normalize : simpl never.
Local Arguments filename_extension : simpl never.
Local Arguments PosixPath.dirname : simpl never.

Module PyFacts.

Lemma append_assoc (a b c : string) : (a +:+ b) +:+ c = a +:+ (b +:+ c).
Proof. induction a as [|x a IH]; simpl; [reflexivity | now f_equal]. Qed.

Lemma append_empty (a : string) : a +:+ EmptyString = a.
Proof. induction a as [|x a IH]; simpl; [reflexivity | now f_equal]. Qed.

Lemma take_drop (n : nat) (s : string) : Py.take n s +:+ Py.drop n s = s.
Proof.
  revert s; induction n as [|n IH]; intros [|a s]; simpl; try reflexivity.
  now rewrite IH.
Qed.

(** [startswith] is the literal prefix relation on strings. *)
Lemma startswith_spec (s pre : string) :
  Py.startswith s pre = true <-> exists t, s = pre +:+ t.
Proof.
  revert s; induction pre as [|b pre IH]; intros s; simpl.
  - split; [intros _; now exists s | intros _; reflexivity].
  - destruct s as [|a s].
    + split; [discriminate | intros [t Ht]; discriminate].
    + rewrite andb_true_iff, Ascii.eqb_eq, IH. split.
      * intros [-> [t ->]]. now exists t.
      * intros [t Ht]. injection Ht as -> ->. split; [reflexivity | now exists t].
Qed.

Lemma startswith_append (pre t : string) : Py.startswith (pre +:+ t) pre = true.
Proof. apply startswith_spec. now exists t. Qed.

Lemma startswith_trans (s m pre : string) :
  Py.startswith s m = true -> Py.startswith m pre = true ->
  Py.startswith s pre = true.
Proof.
  rewrite !startswith_spec. intros [t ->] [u ->].
  exists (u +:+ t). apply append_assoc.
Qed.

Lemma rstrip_prefix (s : string) (c : ascii) : exists t, s = Py.rstrip s c +:+ t.
Proof.
  induction s as [|a s [t IH]]; simpl.
  - now exists EmptyString.
  - destruct (Py.rstrip s c) as [|x r] eqn:E.
    + destruct (Ascii.eqb a c).
      * now exists (String a s).
      * exists s. reflexivity.
    + exists t. simpl in *. now rewrite <- IH.
Qed.

(** The directory of a path is a literal prefix of the path. *)
Lemma dirname_prefix (p : string) : Py.startswith p (PosixPath.dirname p) = true.
Proof.
  unfold PosixPath.dirname, Py.slice_to.
  set (n := Py.clip _ _).
  destruct (negb _ && negb _).
  - destruct (rstrip_prefix (Py.take n p) PosixPath.sep) as [t Ht].
    apply startswith_spec. exists (t +:+ Py.drop n p).
    rewrite <- append_assoc, <- Ht. symmetry; apply take_drop.
  - apply startswith_spec. exists (Py.drop n p). symmetry; apply take_drop.
Qed.

(** A group that captures a folder captures every path in it. *)
Lemma startswith_dirname (p g : string) :
  Py.startswith (PosixPath.dirname p) g = true -> Py.startswith p g = true.
Proof. apply startswith_trans, dirname_prefix. Qed.

End PyFacts.

(** ** The first loop of [create_graph] *)

Section FirstLoop.

Variable groups : list string.

(** The inner loop over the groups in closed form: every matching group
    issues its node statement and joins [nodes]; [proxy_nodes] keeps the
    value written last. *)
Lemma register_groups_fold (path : string) (gs : list string)
    (st : scan_state) (b : bool) :
  fold_left (register_group path) gs (st, b) =
  ({| g_body := g_body st ++ map proxy_stmt (matching gs path);
      nodes := list_to_set (map group_name (matching gs path)) ∪ nodes st;
      proxy_nodes :=
        match last (matching gs path) with
        | Some g => <[filename_normalize path := group_name g]> (proxy_nodes st)
        | None => proxy_nodes st
        end;
      folder_to_files := folder_to_files st |},
   b || bool_decide (matching gs path ≠ [])).
Proof.
  revert st b. induction gs as [|g gs IH]; intros st b.
  - destruct st; cbn. rewrite app_nil_r, orb_false_r.
    do 2 f_equal. set_solver.
  - cbn [fold_left]. unfold register_group at 2, matching.
    rewrite filter_cons. fold (matching gs path).
    destruct (Py.startswith path g) eqn:Hg.
    + rewrite decide_True by reflexivity. rewrite IH. cbn.
      rewrite <- app_assoc, orb_true_r. f_equal. f_equal.
      * set_solver.
      * destruct (matching gs path) as [|g' M] eqn:HM; [reflexivity|].
        rewrite last_cons_cons.
        destruct (last (g' :: M)) eqn:Hl; [apply insert_insert_eq|].
        apply last_None in Hl. discriminate.
    + rewrite decide_False by congruence. rewrite IH. reflexivity.
Qed.

(** One iteration of the outer loop in closed form. *)
Lemma register_file_closed (st : scan_state) (path : string) :
  register_file groups st path =
  {| g_body := g_body st ++ map proxy_stmt (matching groups path);
     nodes :=
       (if bool_decide (matching groups path ≠ []) then ∅
        else {[filename_normalize path]})
       ∪ list_to_set (map group_name (matching groups path)) ∪ nodes st;
     proxy_nodes :=
       match last (matching groups path) with
       | Some g => <[filename_normalize path := group_name g]> (proxy_nodes st)
       | None => proxy_nodes st
       end;
     folder_to_files :=
       dict_append (folder_to_files st) (PosixPath.dirname path) path |}.
Proof.
  unfold register_file. rewrite register_groups_fold. cbn.
  destruct (bool_decide _); cbn; f_equal; set_solver.
Qed.

Lemma matching_elem (gs : list string) (path g : string) :
  g ∈ matching gs path ↔ g ∈ gs ∧ Py.startswith path g = true.
Proof. unfold matching. rewrite list_elem_of_filter. tauto. Qed.

Lemma matching_nil (gs : list string) (path : string) :
  matching gs path = [] ↔ ∀ g, g ∈ gs → Py.startswith path g = false.
Proof.
  split.
  - intros HM g Hg. destruct (Py.startswith path g) eqn:E; [|reflexivity].
    assert (g ∈ matching gs path) as Hin by now apply matching_elem.
    rewrite HM in Hin. inversion Hin.
  - intros H. destruct (matching gs path) as [|g M] eqn:HM; [reflexivity|].
    assert (g ∈ matching gs path) as [Hg E]%matching_elem by (rewrite HM; left).
    rewrite (H g Hg) in E. discriminate.
Qed.

(** The statements of the first loop are the proxy statements. *)
Lemma find_nodes_body (files : list string) (st : scan_state) :
  g_body (fold_left (register_file groups) files st) =
  g_body st ++ flat_map (λ p, map proxy_stmt (matching groups p)) files.
Proof.
  revert st. induction files as [|p files IH]; intros st; cbn.
  - now rewrite app_nil_r.
  - rewrite IH, register_file_closed. cbn. now rewrite <- app_assoc.
Qed.

Lemma find_nodes_folders (files : list string) (st : scan_state) :
  folder_to_files (fold_left (register_file groups) files st) =
  fold_left (λ d p, dict_append d (PosixPath.dirname p) p) files
            (folder_to_files st).
Proof.
  revert st. induction files as [|p files IH]; intros st; cbn; [reflexivity|].
  rewrite IH, register_file_closed. reflexivity.
Qed.

(** What [nodes] holds after the first loop. *)
Lemma find_nodes_nodes (files : list string) (st : scan_state) (x : string) :
  x ∈ nodes (fold_left (register_file groups) files st) ↔
  x ∈ nodes st ∨
  ∃ p, p ∈ files ∧
       ((matching groups p = [] ∧ x = filename_normalize p) ∨
        ∃ g, g ∈ matching groups p ∧ x = group_name g).
Proof.
  revert st. induction files as [|p files IH]; intros st; cbn.
  - split; [now left | intros [H|(p & Hp & _)]; [exact H | inversion Hp]].
  - rewrite IH, register_file_closed. cbn.
    rewrite !elem_of_union, elem_of_list_to_set, list_elem_of_fmap.
    split.
    + intros [[[H|H]|H]|H].
      * right. exists p. split; [left|]. left.
        case_bool_decide as Hd; [set_solver|].
        split; [|set_solver]. destruct (matching groups p); congruence.
      * right. exists p. split; [left|]. right.
        destruct H as (g & -> & Hg). eauto.
      * now left.
      * destruct H as (p' & Hp' & H). right. exists p'. split; [now right|exact H].
    + intros [H|(p' & Hp' & H)]; [left; now right|].
      apply elem_of_cons in Hp' as [->|Hp'].
      * left. left. destruct H as [[HM ->]|(g & Hg & ->)].
        -- left. rewrite bool_decide_false by (rewrite HM; congruence). set_solver.
        -- right. eauto.
      * right. eauto.
Qed.

(** What [proxy_nodes] can hold after the first loop: base names of
    files mapped to the names of groups that captured them. *)
Lemma find_nodes_proxy (files : list string) (st : scan_state) (k v : string) :
  proxy_nodes (fold_left (register_file groups) files st) !! k = Some v →
  proxy_nodes st !! k = Some v ∨
  ∃ p g, p ∈ files ∧ g ∈ matching groups p ∧
         k = filename_normalize p ∧ v = group_name g.
Proof.
  revert st. induction files as [|p files IH]; intros st; cbn; [now left|].
  intros [H|(p' & g & Hp' & Hg & -> & ->)]%IH.
  - rewrite register_file_closed in H. cbn in H.
    destruct (last (matching groups p)) as [g|] eqn:Hl; [|now left].
    destruct (decide (filename_normalize p = k)) as [<-|Hne].
    + rewrite lookup_insert_eq in H. injection H as <-.
      right. exists p, g. split; [left|]. split; [|done].
      apply last_Some in Hl as [l' ->]. set_solver.
    + rewrite lookup_insert_ne in H by exact Hne. now left.
  - right. exists p', g. split; [now right|done].
Qed.

End FirstLoop.

(** ** The second loop of [create_graph] *)

Section SecondLoop.

Variable groups : list string.
Variable read : string -> option string.
Variable nodes : gset string.
Variable proxy_nodes : gmap string string.

Lemma folder_in_group_fold (folder : string) (gs : list string) (b : bool) :
  fold_left (λ in_group group,
               if Py.startswith folder group then true else in_group) gs b =
  b || bool_decide (matching gs folder ≠ []).
Proof.
  revert b. induction gs as [|g gs IH]; intros b; cbn [fold_left].
  - cbn. now rewrite orb_false_r.
  - rewrite IH. unfold matching. rewrite filter_cons.
    destruct (Py.startswith folder g) eqn:Hg.
    + rewrite decide_True by reflexivity. now rewrite orb_true_r.
    + rewrite decide_False by congruence. reflexivity.
Qed.

Lemma folder_in_group_true (folder : string) :
  folder_in_group groups folder = true ↔
  ∃ g, g ∈ groups ∧ Py.startswith folder g = true.
Proof.
  unfold folder_in_group. rewrite folder_in_group_fold. cbn.
  rewrite bool_decide_eq_true. split.
  - intros H. destruct (matching groups folder) as [|g M] eqn:HM; [done|].
    exists g. apply matching_elem. rewrite HM. left.
  - intros (g & Hg & E) HM.
    assert (g ∈ matching groups folder) as Hin by now apply matching_elem.
    rewrite HM in Hin. inversion Hin.
Qed.

Lemma folder_in_group_false (folder : string) :
  folder_in_group groups folder = false ↔
  ∀ g, g ∈ groups → Py.startswith folder g = false.
Proof.
  rewrite <- not_true_iff_false, folder_in_group_true. split.
  - intros H g Hg. destruct (Py.startswith folder g) eqn:E; [|reflexivity].
    destruct H. eauto.
  - intros H (g & Hg & E). rewrite (H g Hg) in E. discriminate.
Qed.

(** The loop over the targets only ever appends. *)
Lemma add_neighbor_app (node color : string) (body : list stmt) (x : string) :
  add_neighbor nodes proxy_nodes node color body x =
  body ++ neighbor_edge nodes proxy_nodes node color x.
Proof.
  unfold neighbor_edge, add_neighbor.
  repeat case_bool_decide; try destruct (proxy_nodes !! x);
    now rewrite ?app_nil_r.
Qed.

Lemma fold_add_neighbor (node color : string) (l : list string) (body : list stmt) :
  fold_left (add_neighbor nodes proxy_nodes node color) l body =
  body ++ flat_map (neighbor_edge nodes proxy_nodes node color) l.
Proof.
  revert body. induction l as [|x l IH]; intros body; cbn.
  - now rewrite app_nil_r.
  - now rewrite IH, add_neighbor_app, <- app_assoc.
Qed.

Lemma process_file_app (body : list stmt) (path : string) :
  process_file read nodes proxy_nodes body path =
  (λ ss, body ++ ss) <$> file_stmts read nodes proxy_nodes path.
Proof.
  unfold process_file, file_stmts.
  destruct (find_neighbors read path) as [l|]; cbn; [|reflexivity].
  now rewrite fold_add_neighbor, <- app_assoc.
Qed.

Lemma process_files_app (body : list stmt) (paths : list string) :
  process_files read nodes proxy_nodes body paths =
  (λ ss, body ++ concat ss) <$> mapM (file_stmts read nodes proxy_nodes) paths.
Proof.
  revert body. induction paths as [|p paths IH]; intros body; cbn.
  - now rewrite app_nil_r.
  - rewrite process_file_app.
    destruct (file_stmts read nodes proxy_nodes p) as [s|]; cbn; [|reflexivity].
    rewrite IH.
    destruct (mapM (file_stmts read nodes proxy_nodes) paths); cbn; [|reflexivity].
    now rewrite <- app_assoc.
Qed.

Lemma mapM_app_option {A B : Type} (f : A → option B) (l1 l2 : list A) :
  mapM f (l1 ++ l2) = k1 ← mapM f l1; k2 ← mapM f l2; Some (k1 ++ k2).
Proof.
  induction l1 as [|x l1 IH]; cbn.
  - now destruct (mapM f l2).
  - destruct (f x); cbn; [|reflexivity]. rewrite IH.
    destruct (mapM f l1); cbn; [|reflexivity].
    now destruct (mapM f l2).
Qed.

(** The second loop in closed form: the statements of the processed files,
    in order, appended to the body; it fails exactly when one of these
    files cannot be read. *)
Lemma process_folders_app (body : list stmt) (folders : list (string * list string)) :
  process_folders groups read nodes proxy_nodes body folders =
  (λ ss, body ++ concat ss)
    <$> mapM (file_stmts read nodes proxy_nodes) (processed groups folders).
Proof.
  revert body. induction folders as [|[folder paths] folders IH]; intros body; cbn.
  - now rewrite app_nil_r.
  - destruct (folder_in_group groups folder); cbn; [apply IH|].
    rewrite process_files_app, mapM_app_option.
    destruct (mapM _ paths) as [k1|]; cbn; [|reflexivity].
    rewrite IH. fold (processed groups folders).
    destruct (mapM _ (processed groups folders)); cbn; [|reflexivity].
    now rewrite concat_app, app_assoc.
Qed.

End SecondLoop.

(** ** The folder dictionary *)

Section Folders.

Lemma dict_append_pairs (d : list (string * list string)) (k v : string)
    (x : string * string) :
  x ∈ dict_pairs (dict_append d k v) ↔ x ∈ dict_pairs d ∨ x = (k, v).
Proof.
  induction d as [|[k' l] d IH]; cbn.
  - set_solver.
  - destruct (String.eqb_spec k' k) as [->|Hne]; cbn.
    + rewrite map_app, !elem_of_app. cbn. set_solver.
    + rewrite !elem_of_app, IH. tauto.
Qed.

Lemma folders_pairs (files : list string) (d : list (string * list string))
    (x : string * string) :
  x ∈ dict_pairs (fold_left (λ d p, dict_append d (PosixPath.dirname p) p) files d) ↔
  x ∈ dict_pairs d ∨ ∃ p, p ∈ files ∧ x = (PosixPath.dirname p, p).
Proof.
  revert d. induction files as [|p files IH]; intros d; cbn.
  - set_solver.
  - rewrite IH, dict_append_pairs. set_solver.
Qed.

Lemma processed_elem (groups : list string) (d : list (string * list string))
    (p : string) :
  p ∈ processed groups d ↔
  ∃ k, (k, p) ∈ dict_pairs d ∧ folder_in_group groups k = false.
Proof.
  unfold processed, dict_pairs. induction d as [|[k l] d IH]; cbn.
  - set_solver.
  - rewrite !elem_of_app, IH. setoid_rewrite elem_of_app.
    setoid_rewrite list_elem_of_fmap. split.
    + intros [H|(k' & H & E)].
      * destruct (folder_in_group groups k) eqn:E; [inversion H|].
        exists k. split; [left; eauto|exact E].
      * exists k'. split; [now right|exact E].
    + intros (k' & [(p' & [= -> ->] & H)|H] & E).
      * left. now rewrite E.
      * right. eauto.
Qed.

(** The files the second loop opens are the discovered files whose folder
    no group captures. *)
Lemma processed_find_nodes (groups files : list string) (p : string) :
  p ∈ processed groups (folder_to_files (find_nodes groups files)) ↔
  p ∈ files ∧ folder_in_group groups (PosixPath.dirname p) = false.
Proof.
  unfold find_nodes. rewrite find_nodes_folders, processed_elem. cbn. split.
  - intros (k & [H|(p' & Hp' & [= -> ->])]%folders_pairs & E); [inversion H|].
    now split.
  - intros [Hp E]. exists (PosixPath.dirname p). split; [|exact E].
    apply folders_pairs. right. eauto.
Qed.

End Folders.

(** ** [create_graph] in closed form *)

Lemma create_graph_closed (groups : list string) (read : string → option string)
    (files : list string) (strict : bool) :
  create_graph groups read files strict =
  (λ ss, {| strict := strict;
            node_attr := [("color", "lightblue2"); ("style", "filled")];
            format := "pdf";
            body := flat_map (λ p, map proxy_stmt (matching groups p)) files
                    ++ concat ss |})
    <$> mapM (file_stmts read (nodes (find_nodes groups files))
                (proxy_nodes (find_nodes groups files)))
             (processed groups (folder_to_files (find_nodes groups files))).
Proof.
  unfold create_graph. cbn zeta. rewrite process_folders_app.
  replace (g_body (find_nodes groups files))
    with (flat_map (λ p, map proxy_stmt (matching groups p)) files)
    by (unfold find_nodes; now rewrite find_nodes_body).
  now destruct (mapM _ _).
Qed.

(** ** Where the statements of the graph come from *)

Lemma neighbor_edge_elem (nodes : gset string) (proxy_nodes : gmap string string)
    (node color x : string) (s : stmt) :
  s ∈ neighbor_edge nodes proxy_nodes node color x ↔
  x ≠ node ∧
  ((x ∈ nodes ∧ s = Edge node x "back" color) ∨
   ((x ∉ nodes) ∧ (∃ proxy, proxy_nodes !! x = Some proxy ∧
                           s = Edge node proxy "back" color))).
Proof.
  unfold neighbor_edge, add_neighbor.
  repeat case_bool_decide; try destruct (proxy_nodes !! x) as [gn|] eqn:E;
    cbn; rewrite ?list_elem_of_singleton, ?elem_of_nil; naive_solver.
Qed.

Lemma file_stmts_elem (read : string → option string) (nodes : gset string)
    (proxy_nodes : gmap string string) (path : string) (ss : list stmt) (s : stmt) :
  file_stmts read nodes proxy_nodes path = Some ss →
  (s ∈ ss ↔
   s = Node (filename_normalize path) None ∨
   ∃ code target, read path = Some code ∧ target ∈ Regex.findall code ∧
     s ∈ neighbor_edge nodes proxy_nodes (filename_normalize path)
           (edge_color (filename_extension path)) (filename_normalize target)).
Proof.
  unfold file_stmts, find_neighbors.
  destruct (read path) as [code|]; cbn; [|discriminate].
  intros [= <-]. rewrite elem_of_cons, list_elem_of_In, in_flat_map.
  setoid_rewrite <- list_elem_of_In. setoid_rewrite list_elem_of_fmap.
  split.
  - intros [->|(x & (target & -> & Ht) & Hs)]; [now left|]. right. eauto.
  - intros [->|(code' & target & [= <-] & Ht & Hs)]; [now left|]. right. eauto.
Qed.

(** Every statement of the graph is the node statement of a group that
    captured a discovered file, or a statement of a discovered file whose
    folder no group captures. *)
Lemma create_graph_elem (groups : list string) (read : string → option string)
    (files : list string) (strict : bool) (g : Digraph) (s : stmt) :
  create_graph groups read files strict = Some g →
  (s ∈ body g ↔
   (∃ p gr, p ∈ files ∧ gr ∈ matching groups p ∧ s = proxy_stmt gr) ∨
   (∃ p ss, p ∈ files ∧ folder_in_group groups (PosixPath.dirname p) = false ∧
            file_stmts read (nodes (find_nodes groups files))
              (proxy_nodes (find_nodes groups files)) p = Some ss ∧ s ∈ ss)).
Proof.
  rewrite create_graph_closed.
  destruct (mapM _ _) as [sss|] eqn:HM; cbn; [|discriminate]. intros [= <-]. cbn.
  apply mapM_Some in HM.
  rewrite elem_of_app, !list_elem_of_In, in_flat_map, in_concat.
  setoid_rewrite <- list_elem_of_In. setoid_rewrite list_elem_of_fmap.
  split.
  - intros [(p & Hp & gr & -> & Hgr)|(ss & Hss & Hs)]; [left; eauto|].
    right. apply list_elem_of_lookup in Hss as [i Hi].
    destruct (Forall2_lookup_r _ _ _ _ _ HM Hi) as (p & Hp & Hf).
    apply list_elem_of_lookup_2, processed_find_nodes in Hp as [Hp E].
    eauto 10.
  - intros [(p & gr & Hp & Hgr & ->)|(p & ss & Hp & E & Hf & Hs)]; [left; eauto|].
    right. exists ss. split; [|exact Hs].
    assert (p ∈ processed groups (folder_to_files (find_nodes groups files)))
      as [i Hi]%list_elem_of_lookup by now apply processed_find_nodes.
    destruct (Forall2_lookup_l _ _ _ _ _ HM Hi) as (ss' & Hss' & Hf').
    rewrite Hf in Hf'. injection Hf' as <-. eapply list_elem_of_lookup_2, Hss'.
Qed.

(** The graph exists as soon as every discovered file can be read. *)
Lemma create_graph_total (groups : list string) (read : string → option string)
    (files : list string) (strict : bool) :
  (∀ p, p ∈ files → is_Some (read p)) →
  is_Some (create_graph groups read files strict).
Proof.
  intros Hread. rewrite create_graph_closed. apply fmap_is_Some, mapM_is_Some.
  apply Forall_forall. intros p [Hp _]%processed_find_nodes. cbn.
  unfold file_stmts, find_neighbors. destruct (Hread p Hp) as [code ->]. cbn. eauto.
Qed.

(** What a graph that was built says about the files. *)
Lemma file_stmts_None (read : string → option string) (nodes : gset string)
    (proxy_nodes : gmap string string) (path : string) :
  file_stmts read nodes proxy_nodes path = None ↔ read path = None.
Proof.
  unfold file_stmts, find_neighbors. destruct (read path); cbn; split; congruence.
Qed.

Lemma create_graph_None (groups : list string)
    (read : string → option string) (files : list string) (strict : bool) :
  create_graph groups read files strict = None ↔
  ∃ p, p ∈ files ∧ folder_in_group groups (PosixPath.dirname p) = false ∧
       read p = None.
Proof.
  rewrite create_graph_closed, fmap_None, mapM_None, Exists_exists.
  split.
  - intros (p & [Hp E]%processed_find_nodes & Hf%file_stmts_None). eauto.
  - intros (p & Hp & E & Hr). exists p. split.
    + now apply processed_find_nodes.
    + now apply file_stmts_None.
Qed.


Lemma created_graph_reads_files (groups : list string)
    (read : string → option string) (files : list string) (strict : bool)
    (g : Digraph) (p : string) :
  create_graph groups read files strict = Some g →
  p ∈ files → folder_in_group groups (PosixPath.dirname p) = false →
  ∃ code, read p = Some code.
Proof.
  intros Hg Hp E. destruct (read p) as [code|] eqn:Hr; [eauto|].
  assert (create_graph groups read files strict = None) as Hn
    by (apply create_graph_None; eauto).
  congruence.
Qed.

Lemma plain_node_in_graph (groups : list string)
    (read : string → option string) (files : list string) (strict : bool)
    (g : Digraph) (p : string) :
  create_graph groups read files strict = Some g →
  p ∈ files → folder_in_group groups (PosixPath.dirname p) = false →
  Node (filename_normalize p) None ∈ body g.
Proof.
  intros Hg Hp E.
  destruct (created_graph_reads_files _ _ _ _ _ _ Hg Hp E) as [code Hr].
  apply (create_graph_elem _ _ _ _ _ _ Hg). right.
  destruct (file_stmts read (nodes (find_nodes groups files))
              (proxy_nodes (find_nodes groups files)) p) as [ss|] eqn:Hf.
  - exists p, ss. repeat split; try assumption.
    apply (file_stmts_elem _ _ _ _ _ _ Hf). now left.
  - apply file_stmts_None in Hf. congruence.
Qed.

(** * The claims *)

(** ** C1: orientation of the recorded edges *)

(** C1, as stated, fails on the two-header tree: the one edge the builder
    records has the includer [a] as its first component and the included
    [b] as its second, so the edge set is not the set holding (b, a). *)
Lemma ab_edge_is_not_target_first :
  ∃ g, create_graph [] ab_read ab_files false = Some g ∧
       edge_stmts (body g) = [Edge "a" "b" "back" "red"] ∧
       edge_pairs (body g) ≠ [("b", "a")] ∧
       ¬ (∀ t h, (t, h) ∈ edge_pairs (body g) → t = "b" ∧ h = "a").
Proof.
  eexists. split; [vm_compute; reflexivity|]. cbn [body].
  split; [vm_compute; reflexivity|]. split; [vm_compute; discriminate|].
  intros H. destruct (H "a" "b") as [E _]; [vm_compute; left|]. discriminate.
Qed.

(** The file, the target and the resolution behind an edge of the graph. *)
Lemma edge_origin (groups : list string)
    (read : string → option string) (files : list string) (strict : bool)
    (g : Digraph) (t h d c : string) :
  create_graph groups read files strict = Some g →
  Edge t h d c ∈ body g →
  ∃ path code target,
    path ∈ files ∧ folder_in_group groups (PosixPath.dirname path) = false ∧
    read path = Some code ∧ target ∈ Regex.findall code ∧
    Edge t h d c ∈ neighbor_edge (nodes (find_nodes groups files))
                     (proxy_nodes (find_nodes groups files))
                     (filename_normalize path)
                     (edge_color (filename_extension path))
                     (filename_normalize target).
Proof.
  intros Hg Hs. apply (create_graph_elem _ _ _ _ _ _ Hg) in Hs
    as [(p & gr & _ & _ & [=])|(p & ss & Hp & E & Hf & Hs)].
  apply (file_stmts_elem _ _ _ _ _ _ Hf) in Hs
    as [[=]|(code & target & Hc & Ht & Hs)].
  exists p, code, target. auto.
Qed.

(** Every resolved include of a processed file is in the graph as an edge
    from the file to what the target resolves to. *)
Lemma resolved_include_has_edge (groups : list string)
    (read : string → option string) (files : list string) (strict : bool)
    (g : Digraph) (path code target : string) (s : stmt) :
  create_graph groups read files strict = Some g →
  path ∈ files → folder_in_group groups (PosixPath.dirname path) = false →
  read path = Some code → target ∈ Regex.findall code →
  s ∈ neighbor_edge (nodes (find_nodes groups files))
        (proxy_nodes (find_nodes groups files))
        (filename_normalize path) (edge_color (filename_extension path))
        (filename_normalize target) →
  s ∈ body g.
Proof.
  intros Hg Hp E Hc Ht Hs.
  apply (create_graph_elem _ _ _ _ _ _ Hg). right.
  destruct (file_stmts read (nodes (find_nodes groups files))
              (proxy_nodes (find_nodes groups files)) path) as [ss|] eqn:Hf.
  - exists path, ss. repeat split; try assumption.
    apply (file_stmts_elem _ _ _ _ _ _ Hf). right. eauto.
  - unfold file_stmts, find_neighbors in Hf. rewrite Hc in Hf. discriminate.
Qed.

(** C1 (amended): the edges of the graph are the ordered pairs
    (includer, included target), marked [dir = back].  Every edge has as
    tail the node of a discovered file in an uncaptured folder, as head the
    node a target extracted from that file resolves to (the target's own
    name when it is a direct node, else the proxy its name is mapped to),
    and the includer's colour; and every include of such a file that
    resolves is recorded as that edge. *)
Theorem edge_is_includer_then_target (groups : list string)
    (read : string → option string) (files : list string) (strict : bool)
    (g : Digraph) :
  create_graph groups read files strict = Some g →
  (∀ t h d c, Edge t h d c ∈ body g →
     ∃ path code target,
       path ∈ files ∧ folder_in_group groups (PosixPath.dirname path) = false ∧
       read path = Some code ∧ target ∈ Regex.findall code ∧
       t = filename_normalize path ∧
       filename_normalize target ≠ t ∧
       ((filename_normalize target ∈ nodes (find_nodes groups files) ∧
         h = filename_normalize target) ∨
        ((filename_normalize target ∉ nodes (find_nodes groups files)) ∧
         proxy_nodes (find_nodes groups files) !! filename_normalize target = Some h)) ∧
       d = "back" ∧ c = edge_color (filename_extension path)) ∧
  (∀ path code target h,
     path ∈ files → folder_in_group groups (PosixPath.dirname path) = false →
     read path = Some code → target ∈ Regex.findall code →
     filename_normalize target ≠ filename_normalize path →
     (filename_normalize target ∈ nodes (find_nodes groups files) ∧
      h = filename_normalize target) ∨
     ((filename_normalize target ∉ nodes (find_nodes groups files)) ∧
      proxy_nodes (find_nodes groups files) !! filename_normalize target = Some h) →
     Edge (filename_normalize path) h "back" (edge_color (filename_extension path))
       ∈ body g).
Proof.
  intros Hg. split.
  - intros t h d c Hs.
    destruct (edge_origin _ _ _ _ _ _ _ _ _ Hg Hs)
      as (p & code & target & Hp & E & Hc & Ht & He).
    apply neighbor_edge_elem in He
      as [Hne [[Hin [= -> -> -> ->]]|[Hnin (gn & Hgn & [= -> -> -> ->])]]];
      exists p, code, target; eauto 12.
  - intros path code target h Hp E Hc Ht Hne Hres.
    apply (resolved_include_has_edge _ _ _ _ _ _ _ _ _ Hg Hp E Hc Ht).
    apply neighbor_edge_elem. split; [exact Hne|].
    destruct Hres as [[Hin ->]|[Hnin Hpr]]; [left|right]; eauto.
Qed.

Lemma edge_is_includer_then_target_witness :
  let g := {| strict := false;
              node_attr := [("color", "lightblue2"); ("style", "filled")];
              format := "pdf";
              body := [Node "a" None; Edge "a" "b" "back" "red"; Node "b" None] |} in
  (∀ t h d c, Edge t h d c ∈ body g →
     ∃ path code target,
       path ∈ ab_files ∧ folder_in_group [] (PosixPath.dirname path) = false ∧
       ab_read path = Some code ∧ target ∈ Regex.findall code ∧
       t = filename_normalize path ∧
       filename_normalize target ≠ t ∧
       ((filename_normalize target ∈ nodes (find_nodes [] ab_files) ∧
         h = filename_normalize target) ∨
        ((filename_normalize target ∉ nodes (find_nodes [] ab_files)) ∧
         proxy_nodes (find_nodes [] ab_files) !! filename_normalize target = Some h)) ∧
       d = "back" ∧ c = edge_color (filename_extension path)) ∧
  (∀ path code target h,
     path ∈ ab_files → folder_in_group [] (PosixPath.dirname path) = false →
     ab_read path = Some code → target ∈ Regex.findall code →
     filename_normalize target ≠ filename_normalize path →
     (filename_normalize target ∈ nodes (find_nodes [] ab_files) ∧
      h = filename_normalize target) ∨
     ((filename_normalize target ∉ nodes (find_nodes [] ab_files)) ∧
      proxy_nodes (find_nodes [] ab_files) !! filename_normalize target = Some h) →
     Edge (filename_normalize path) h "back" (edge_color (filename_extension path))
       ∈ body g).
Proof.
  apply (edge_is_includer_then_target [] ab_read ab_files false).
  vm_compute. reflexivity.
Defined.

(** ** C2: several matching groups *)

(** C2, as stated, fails for nested groups: [lib/sub/x.h] is matched by both
    [lib] and [lib/sub]; its base name ends up mapped to the proxy of the
    later rule, and the include of [x.h] from outside lands on that proxy. *)
Lemma nested_groups_first_rule_loses :
  Py.startswith "./lib/sub/x.h" "./lib" = true ∧
  Py.startswith "./lib/sub/x.h" "./lib/sub" = true ∧
  proxy_nodes (find_nodes nested_groups nested_files) !! filename_normalize "./lib/sub/x.h"
    = Some (group_name "./lib/sub") ∧
  proxy_nodes (find_nodes nested_groups nested_files) !! filename_normalize "./lib/sub/x.h"
    ≠ Some (group_name "./lib") ∧
  body <$> create_graph nested_groups nested_read nested_files false =
    Some [Node "group - lib" (Some "lightgreen");
          Node "group - sub" (Some "lightgreen");
          Node "main" None; Edge "main" "group - sub" "back" "blue"].
Proof.
  repeat split; try (vm_compute; reflexivity). vm_compute. discriminate.
Qed.

Lemma matching_last (gs1 gs2 : list string) (g path : string) :
  Py.startswith path g = true →
  (∀ g', g' ∈ gs2 → Py.startswith path g' = false) →
  last (matching (gs1 ++ g :: gs2) path) = Some g.
Proof.
  intros Hg Hgs2. unfold matching. rewrite filter_app, filter_cons.
  rewrite decide_True by exact Hg. fold (matching gs2 path).
  rewrite (proj2 (matching_nil gs2 path) Hgs2). apply last_snoc.
Qed.

(** Registering a file leaves the proxy entry of another base name, and of
    any base name when no group matches, as it was. *)
Lemma register_file_proxy_other (groups : list string) (st : scan_state)
    (p k : string) :
  (filename_normalize p = k → matching groups p = []) →
  proxy_nodes (register_file groups st p) !! k = proxy_nodes st !! k.
Proof.
  intros H. rewrite register_file_closed. cbn.
  destruct (last (matching groups p)) as [g|] eqn:Hl; [|reflexivity].
  apply lookup_insert_ne. intros E. rewrite (H E) in Hl. discriminate.
Qed.

Lemma fold_register_proxy_other (groups files : list string) (st : scan_state)
    (k : string) :
  (∀ p, p ∈ files → filename_normalize p = k → matching groups p = []) →
  proxy_nodes (fold_left (register_file groups) files st) !! k = proxy_nodes st !! k.
Proof.
  revert st. induction files as [|p files IH]; intros st H; cbn; [reflexivity|].
  rewrite IH by (intros; apply H; [now right|done]).
  apply register_file_proxy_other, H. left.
Qed.

(** C2 (amended): when several configured groups match a file, every one of
    them gets its proxy node, and the file's base name is mapped to the
    proxy of the LAST matching group in configured order (provided no later
    grouped file shares the base name and overwrites the entry). *)
Theorem last_matching_group_wins (gs1 gs2 fs1 fs2 : list string) (g path : string) :
  Py.startswith path g = true →
  (∀ g', g' ∈ gs2 → Py.startswith path g' = false) →
  (∀ p, p ∈ fs2 → filename_normalize p = filename_normalize path →
        matching (gs1 ++ g :: gs2) p = []) →
  proxy_nodes (find_nodes (gs1 ++ g :: gs2) (fs1 ++ path :: fs2))
    !! filename_normalize path = Some (group_name g) ∧
  ∀ g', g' ∈ gs1 ++ g :: gs2 → Py.startswith path g' = true →
        group_name g' ∈ nodes (find_nodes (gs1 ++ g :: gs2) (fs1 ++ path :: fs2)) ∧
        proxy_stmt g' ∈ g_body (find_nodes (gs1 ++ g :: gs2) (fs1 ++ path :: fs2)).
Proof.
  intros Hg Hgs2 Hfs2. split.
  - unfold find_nodes. rewrite fold_left_app. cbn [fold_left].
    rewrite fold_register_proxy_other by exact Hfs2.
    rewrite register_file_closed. cbn.
    rewrite matching_last by assumption. apply lookup_insert_eq.
  - intros g' Hg' E.
    assert (g' ∈ matching (gs1 ++ g :: gs2) path) as HM by now apply matching_elem.
    split.
    + apply find_nodes_nodes. right. exists path. split; [set_solver|]. right. eauto.
    + unfold find_nodes. rewrite find_nodes_body. cbn.
      apply list_elem_of_In, in_flat_map. exists path.
      split; apply list_elem_of_In; [set_solver|].
      apply list_elem_of_fmap. eauto.
Qed.

Lemma last_matching_group_wins_witness :
  proxy_nodes (find_nodes (["./lib"] ++ "./lib/sub" :: []) ([] ++ "./lib/sub/x.h" :: ["./main.c"]))
    !! filename_normalize "./lib/sub/x.h" = Some (group_name "./lib/sub") ∧
  ∀ g', g' ∈ ["./lib"] ++ "./lib/sub" :: [] → Py.startswith "./lib/sub/x.h" g' = true →
        group_name g' ∈ nodes (find_nodes (["./lib"] ++ "./lib/sub" :: [])
                                 ([] ++ "./lib/sub/x.h" :: ["./main.c"])) ∧
        proxy_stmt g' ∈ g_body (find_nodes (["./lib"] ++ "./lib/sub" :: [])
                                  ([] ++ "./lib/sub/x.h" :: ["./main.c"])).
Proof.
  apply (last_matching_group_wins ["./lib"] [] [] ["./main.c"] "./lib/sub" "./lib/sub/x.h").
  - vm_compute. reflexivity.
  - intros g' Hg'. inversion Hg'.
  - intros p Hp. apply list_elem_of_singleton in Hp as ->. vm_compute. discriminate.
Defined.

(** ** C3: files under a group prefix *)


Lemma register_file_proxy_is_Some (groups : list string) (st : scan_state)
    (p k : string) :
  is_Some (proxy_nodes st !! k) → is_Some (proxy_nodes (register_file groups st p) !! k).
Proof.
  intros H. rewrite register_file_closed. cbn.
  destruct (last (matching groups p)); [|exact H].
  rewrite lookup_insert. case_decide; [eauto|exact H].
Qed.

Lemma fold_register_proxy_is_Some (groups files : list string) (st : scan_state)
    (k : string) :
  is_Some (proxy_nodes st !! k) →
  is_Some (proxy_nodes (fold_left (register_file groups) files st) !! k).
Proof.
  revert st. induction files as [|p files IH]; intros st H; cbn; [exact H|].
  apply IH, register_file_proxy_is_Some, H.
Qed.

(** The base name of a discovered file that some group matches is a key of
    [proxy_nodes], mapped to the name of a group that captured a file of
    that base name. *)
Lemma grouped_file_has_proxy (groups files : list string) (path : string) :
  path ∈ files → matching groups path ≠ [] →
  ∃ p gr, p ∈ files ∧ gr ∈ matching groups p ∧
          filename_normalize p = filename_normalize path ∧
          proxy_nodes (find_nodes groups files) !! filename_normalize path
            = Some (group_name gr).
Proof.
  intros Hp HM.
  assert (is_Some (proxy_nodes (find_nodes groups files) !! filename_normalize path))
    as [v Hv].
  { apply list_elem_of_split in Hp as (fs1 & fs2 & ->).
    unfold find_nodes. rewrite fold_left_app. cbn [fold_left].
    apply fold_register_proxy_is_Some. rewrite register_file_closed. cbn.
    destruct (last (matching groups path)) as [g|] eqn:Hl.
    - rewrite lookup_insert_eq. eauto.
    - apply last_None in Hl. contradiction. }
  destruct (find_nodes_proxy _ _ _ _ _ Hv) as [H|(p & gr & Hp' & Hgr & E & ->)].
  - cbn in H. rewrite lookup_empty in H. discriminate.
  - exists p, gr. rewrite Hv. eauto.
Qed.



(** ** C4: self-edges *)

(** An include of the file's own base name never yields an edge, and a
    target that resolves as a direct node never yields a self-edge. *)
Lemma own_name_is_skipped (nodes : gset string) (proxy_nodes : gmap string string)
    (node color : string) (body : list stmt) :
  add_neighbor nodes proxy_nodes node color body node = body.
Proof. unfold add_neighbor. now rewrite bool_decide_false by (intros H; now apply H). Qed.

(** A self-edge in the graph can only come from a target that was resolved
    through [proxy_nodes]. *)
Lemma self_edge_only_through_proxy (groups : list string)
    (read : string → option string) (files : list string) (strict : bool)
    (g : Digraph) (x d c : string) :
  create_graph groups read files strict = Some g →
  Edge x x d c ∈ body g →
  ∃ path code target,
    path ∈ files ∧ read path = Some code ∧ target ∈ Regex.findall code ∧
    x = filename_normalize path ∧ filename_normalize target ≠ x ∧
    proxy_nodes (find_nodes groups files) !! filename_normalize target = Some x.
Proof.
  intros Hg Hs.
  destruct (edge_origin _ _ _ _ _ _ _ _ _ Hg Hs)
    as (path & code & target & Hp & _ & Hc & Ht & He).
  apply neighbor_edge_elem in He as [Hne [[_ [= E1 E2]]|[_ (gn & Hgn & [= E1 E2])]]].
  - congruence.
  - subst. eauto 10.
Qed.

(** C4: the guard compares the target with the file's own name before the
    target is resolved, so a header whose base name is the name of a group
    node gets an edge onto itself when it includes a member of that group. *)
Theorem self_edge_through_group_proxy :
  create_graph ["./lib"] clash_read clash_files false =
  Some {| strict := false;
          node_attr := [("color", "lightblue2"); ("style", "filled")];
          format := "pdf";
          body := [Node "group - lib" (Some "lightgreen");
                   Node "group - lib" None;
                   Edge "group - lib" "group - lib" "back" "red"] |}.
Proof. vm_compute. reflexivity. Qed.

(** ** C5: folders captured by a group *)

Lemma file_stmts_read_ext (read1 read2 : string → option string)
    (nodes : gset string) (proxy_nodes : gmap string string) (path : string) :
  read1 path = read2 path →
  file_stmts read1 nodes proxy_nodes path = file_stmts read2 nodes proxy_nodes path.
Proof. intros E. unfold file_stmts, find_neighbors. now rewrite E. Qed.

(** C5: a discovered file whose folder starts with a group prefix is not
    among the files the second loop opens; the graph does not depend on what
    such files contain, or on whether they can be read at all; and the tail
    of every edge is the node of a file in an uncaptured folder. *)
Theorem grouped_folders_are_not_read (groups : list string)
    (read1 read2 : string → option string) (files : list string) (strict : bool) :
  (∀ p, p ∈ files → folder_in_group groups (PosixPath.dirname p) = false →
        read1 p = read2 p) →
  (∀ p, p ∈ files → folder_in_group groups (PosixPath.dirname p) = true →
        p ∉ processed groups (folder_to_files (find_nodes groups files))) ∧
  create_graph groups read1 files strict = create_graph groups read2 files strict ∧
  (∀ g t h d c,
     create_graph groups read1 files strict = Some g → Edge t h d c ∈ body g →
     ∃ path, path ∈ files ∧
             folder_in_group groups (PosixPath.dirname path) = false ∧
             t = filename_normalize path).
Proof.
  intros Hread. split; [|split].
  - intros p _ E [_ E']%processed_find_nodes. congruence.
  - rewrite !create_graph_closed. f_equal. apply Forall_mapM_ext, Forall_forall.
    intros p [Hp E]%processed_find_nodes.
    apply file_stmts_read_ext, Hread; assumption.
  - intros g t h d c Hg Hs.
    destruct (edge_origin _ _ _ _ _ _ _ _ _ Hg Hs)
      as (path & code & target & Hp & E & _ & _ & He).
    apply neighbor_edge_elem in He as [_ [[_ [= -> _]]|[_ (gn & _ & [= -> _])]]]; eauto.
Qed.

Lemma grouped_folders_are_not_read_witness :
  (∀ p, p ∈ lib_files → folder_in_group ["./lib"] (PosixPath.dirname p) = true →
        p ∉ processed ["./lib"] (folder_to_files (find_nodes ["./lib"] lib_files))) ∧
  create_graph ["./lib"] lib_read lib_files false
    = create_graph ["./lib"] lib_read_edited lib_files false ∧
  (∀ g t h d c,
     create_graph ["./lib"] lib_read lib_files false = Some g → Edge t h d c ∈ body g →
     ∃ path, path ∈ lib_files ∧
             folder_in_group ["./lib"] (PosixPath.dirname path) = false ∧
             t = filename_normalize path).
Proof.
  apply (grouped_folders_are_not_read ["./lib"] lib_read lib_read_edited lib_files false).
  intros p Hp. unfold lib_files in Hp.
  apply elem_of_cons in Hp as [->|Hp]; [vm_compute; discriminate|].
  apply elem_of_cons in Hp as [->|Hp]; [vm_compute; discriminate|].
  apply list_elem_of_singleton in Hp as ->. vm_compute. reflexivity.
Defined.

(** ** C6: unresolved targets *)

(** Every head of an edge is a member of [nodes]. *)
Lemma edge_head_is_known (groups : list string) (read : string → option string)
    (files : list string) (strict : bool) (g : Digraph) (t h d c : string) :
  create_graph groups read files strict = Some g →
  Edge t h d c ∈ body g →
  h ∈ nodes (find_nodes groups files).
Proof.
  intros Hg Hs.
  destruct (edge_origin _ _ _ _ _ _ _ _ _ Hg Hs)
    as (path & code & target & _ & _ & _ & _ & He).
  apply neighbor_edge_elem in He as [_ [[Hin [= _ ->]]|[_ (gn & Hpr & [= _ ->])]]];
    [exact Hin|].
  apply find_nodes_proxy in Hpr as [Hpr|(p & gr & Hp & Hgr & _ & ->)].
  - cbn in Hpr. rewrite lookup_empty in Hpr. discriminate.
  - apply find_nodes_nodes. right. exists p. split; [exact Hp|]. right. eauto.
Qed.

(** C6, as stated, fails for a target named as a group node: group ids
    are members of [nodes] as well.  With the group [lib], the include of
    [group - lib.h] by [main.c] has a normalized name that is the node name
    of no discovered file, grouped or not, and yet it resolves: the edge
    from [main] to the group node is emitted. *)
Lemma include_of_group_name_is_resolved :
  ∃ g, create_graph ["./lib"] group_named_read group_named_files false = Some g ∧
       group_named_read "./main.c" = Some (include_quoted "group - lib.h") ∧
       Regex.findall (include_quoted "group - lib.h") = ["group - lib.h"] ∧
       (∀ p, p ∈ group_named_files →
             filename_normalize p ≠ filename_normalize "group - lib.h") ∧
       proxy_nodes (find_nodes ["./lib"] group_named_files)
         !! filename_normalize "group - lib.h" = None ∧
       Edge "main" (filename_normalize "group - lib.h") "back" "blue" ∈ body g ∧
       edge_pairs (body g) = [("main", "group - lib")].
Proof.
  eexists. split; [vm_compute; reflexivity|]. cbn [body].
  split; [vm_compute; reflexivity|]. split; [vm_compute; reflexivity|].
  split.
  - intros p Hp. unfold group_named_files in Hp.
    repeat (apply elem_of_cons in Hp as [->|Hp]; [vm_compute; discriminate|]).
    inversion Hp.
  - split; [vm_compute; reflexivity|]. split; [|vm_compute; reflexivity].
    vm_compute. set_solver.
Qed.

(** C6 (amended): a target whose normalized name is neither a member of
    [nodes] (which holds the node names of the files that no group matches
    and the ids of the groups that match a file) nor a key of [proxy_nodes]
    (the base names of the files that some group matches) leaves the body as
    it is, the graph is built all the same (given that the discovered files
    can be read), and no edge of the graph points to that name. *)
Theorem unresolved_target_is_dropped (groups : list string)
    (read : string → option string) (files : list string) (strict : bool)
    (target : string) :
  (∀ p, p ∈ files → is_Some (read p)) →
  filename_normalize target ∉ nodes (find_nodes groups files) →
  proxy_nodes (find_nodes groups files) !! filename_normalize target = None →
  ((∀ node color body,
      add_neighbor (nodes (find_nodes groups files)) (proxy_nodes (find_nodes groups files))
        node color body (filename_normalize target) = body) ∧
   ∃ g, create_graph groups read files strict = Some g ∧
        ∀ t d c, Edge t (filename_normalize target) d c ∉ body g) ∧
  (∀ x, x ∈ nodes (find_nodes groups files) ↔
        (∃ p, p ∈ files ∧ matching groups p = [] ∧ x = filename_normalize p) ∨
        (∃ p gr, p ∈ files ∧ gr ∈ groups ∧ Py.startswith p gr = true ∧
                 x = group_name gr)) ∧
  (∀ k, is_Some (proxy_nodes (find_nodes groups files) !! k) ↔
        ∃ p gr, p ∈ files ∧ gr ∈ groups ∧ Py.startswith p gr = true ∧
                k = filename_normalize p).
Proof.
  intros Hread Hnodes Hproxy. split; [split|split].
  - intros node color body. unfold add_neighbor.
    rewrite (bool_decide_false _ Hnodes), Hproxy. now destruct (bool_decide _).
  - destruct (create_graph_total groups read files strict Hread) as [g Hg].
    exists g. split; [exact Hg|].
    intros t d c Hs. apply Hnodes. eapply edge_head_is_known; eassumption.
  - intros x. unfold find_nodes. rewrite find_nodes_nodes. cbn [nodes scan_init].
    split.
    + intros [H|(p & Hp & [[HM ->]|(gr & [Hgr E]%matching_elem & ->)])];
        [set_solver|left; eauto|right; eauto 10].
    + intros [(p & Hp & HM & ->)|(p & gr & Hp & Hgr & E & ->)]; right; exists p;
        (split; [exact Hp|]); [left; now split|right].
      exists gr. split; [now apply matching_elem|reflexivity].
  - intros k. split.
    + intros [v Hv]. apply find_nodes_proxy in Hv
        as [Hv|(p & gr & Hp & [Hgr E]%matching_elem & -> & _)].
      * cbn in Hv. rewrite lookup_empty in Hv. discriminate.
      * eauto 10.
    + intros (p & gr & Hp & Hgr & E & ->).
      assert (matching groups p ≠ []) as HM.
      { intros HM. assert (gr ∈ matching groups p) as Hin by now apply matching_elem.
        rewrite HM in Hin. inversion Hin. }
      destruct (grouped_file_has_proxy groups files p Hp HM) as (p' & gr' & _ & _ & _ & Hv).
      eauto.
Qed.

Lemma unresolved_target_is_dropped_witness :
  ((∀ node color body,
      add_neighbor (nodes (find_nodes [] system_files)) (proxy_nodes (find_nodes [] system_files))
        node color body (filename_normalize "stdio.h") = body) ∧
   ∃ g, create_graph [] system_read system_files false = Some g ∧
        ∀ t d c, Edge t (filename_normalize "stdio.h") d c ∉ body g) ∧
  (∀ x, x ∈ nodes (find_nodes [] system_files) ↔
        (∃ p, p ∈ system_files ∧ matching [] p = [] ∧ x = filename_normalize p) ∨
        (∃ p gr, p ∈ system_files ∧ gr ∈ [] ∧ Py.startswith p gr = true ∧
                 x = group_name gr)) ∧
  (∀ k, is_Some (proxy_nodes (find_nodes [] system_files) !! k) ↔
        ∃ p gr, p ∈ system_files ∧ gr ∈ [] ∧ Py.startswith p gr = true ∧
                k = filename_normalize p).
Proof.
  apply (unresolved_target_is_dropped [] system_read system_files false "stdio.h").
  - intros p Hp. unfold system_files in Hp.
    apply elem_of_cons in Hp as [->|Hp]; [vm_compute; eauto|].
    apply list_elem_of_singleton in Hp as ->. vm_compute. eauto.
  - apply (bool_decide_eq_false_1 (filename_normalize "stdio.h" ∈ nodes (find_nodes [] system_files))).
    vm_compute. reflexivity.
  - vm_compute. reflexivity.
Defined.

(** ** C7: the include pattern *)

Lemma findall_from_skip (pre rest : string) :
  Regex.findall_from (String.length pre) (pre +:+ rest) = Regex.findall_from 0 rest.
Proof. induction pre as [|a pre IH]; [reflexivity|exact IH]. Qed.

Lemma last_close_plain (name rest : string) (close : ascii) :
  Regex.plain name = true → Regex.is_close close = true →
  Regex.last_close (name +:+ String close (String Regex.newline rest))
    = Some (String.length name).
Proof.
  intros Hname Hclose. induction name as [|a name IH]; simpl.
  - destruct (Ascii.eqb close Regex.newline) eqn:E.
    + apply Ascii.eqb_eq in E. subst close. discriminate Hclose.
    + now rewrite Hclose.
  - simpl in Hname. apply andb_true_iff in Hname as [[Ha _]%andb_true_iff Hname].
    apply negb_true_iff in Ha. rewrite Ha, (IH Hname). reflexivity.
Qed.

Lemma take_append (name rest : string) :
  Py.take (String.length name) (name +:+ rest) = name.
Proof. induction name as [|a name IH]; simpl; [now destruct rest|now f_equal]. Qed.

Lemma length_append (a b : string) :
  String.length (a +:+ b) = String.length a + String.length b.
Proof. induction a as [|x a IH]; simpl; [reflexivity|now rewrite IH]. Qed.

Lemma match_here_include (open close : ascii) (name rest : string) :
  Regex.is_open open = true → Regex.is_close close = true →
  Regex.plain name = true →
  Regex.match_here
    ("#include " +:+ String open (name +:+ String close (String Regex.newline rest)))
  = Some (name, 8 + 1 + 1 + String.length name + 1).
Proof.
  intros Hopen Hclose Hname.
  assert (Regex.is_space open = false) as Hsp.
  { unfold Regex.is_open in Hopen. apply orb_true_iff in Hopen as [E|E];
      apply Ascii.eqb_eq in E; subst open; reflexivity. }
  unfold Regex.match_here.
  change (Regex.strip_literal "#include" _)
    with (Some (String " " (String open (name +:+ String close (String Regex.newline rest))))).
  cbn [Regex.skip_spaces].
  change (Regex.is_space " ") with true. cbn iota. rewrite Hsp. cbn iota.
  rewrite Hopen, (last_close_plain name rest close Hname Hclose), take_append.
  reflexivity.
Qed.

(** A directive that stands alone on its line, with a target free of line
    feeds and closing characters, is recognized and its target is the
    enclosed text, whichever opening and closing characters delimit it. *)
Lemma include_line_is_recognized (open close : ascii) (name rest : string) :
  Regex.is_open open = true → Regex.is_close close = true →
  Regex.plain name = true →
  Regex.findall (include_line open close name +:+ rest)
    = name :: Regex.findall rest.
Proof.
  intros Hopen Hclose Hname. unfold Regex.findall.
  replace (include_line open close name +:+ rest)
    with ("#include " +:+ String open (name +:+ String close (String Regex.newline rest)))
    by (unfold include_line, nl; simpl; now rewrite PyFacts.append_assoc).
  pose proof (match_here_include open close name rest Hopen Hclose Hname) as HM.
  change ("#include " +:+ String open (name +:+ String close (String Regex.newline rest)))
    with (String "#" ("include " +:+ String open (name +:+ String close (String Regex.newline rest))))
    in *.
  cbn [Regex.findall_from]. rewrite HM. f_equal.
  replace ("include " +:+ String open (name +:+ String close (String Regex.newline rest)))
    with (("include " +:+ String open (name +:+ String close EmptyString))
            +:+ String Regex.newline rest)
    by (simpl; now rewrite PyFacts.append_assoc).
  replace (Nat.pred (8 + 1 + 1 + String.length name + 1))
    with (String.length ("include " +:+ String open (name +:+ String close EmptyString)))
    by (simpl; rewrite length_append; simpl; lia).
  rewrite findall_from_skip. reflexivity.
Qed.

(** The normalization of a target and of a path agree: a path that ends in
    a separator followed by a name without separator has the node name of
    that name. *)
Lemma rfind_lower (s : string) (c : ascii) : (-1 <= Py.rfind s c)%Z.
Proof.
  induction s as [|a s IH]; simpl; [lia|].
  destruct (0 <=? Py.rfind s c)%Z eqn:E; [apply Z.leb_le in E; lia|].
  destruct (Ascii.eqb a c); lia.
Qed.

Lemma rfind_append (a b : string) (c : ascii) :
  Py.rfind (a +:+ b) c =
  if (0 <=? Py.rfind b c)%Z then (Z.of_nat (String.length a) + Py.rfind b c)%Z
  else Py.rfind a c.
Proof.
  induction a as [|x a IH].
  - simpl. pose proof (rfind_lower b c).
    destruct (0 <=? Py.rfind b c)%Z eqn:E; [lia|]. apply Z.leb_gt in E. lia.
  - simpl String.append. cbn [Py.rfind String.length]. rewrite IH.
    destruct (0 <=? Py.rfind b c)%Z eqn:E; [|reflexivity].
    apply Z.leb_le in E.
    rewrite (proj2 (Z.leb_le 0 _)) by lia. lia.
Qed.

Lemma rfind_lacks (s : string) (c : ascii) :
  Py.lacks s c = true → Py.rfind s c = (-1)%Z.
Proof.
  induction s as [|a s IH]; simpl; [reflexivity|].
  intros [Ha Hs]%andb_true_iff. rewrite (IH Hs). simpl.
  apply negb_true_iff in Ha. now rewrite Ha.
Qed.

Lemma drop_append (a b : string) : Py.drop (String.length a) (a +:+ b) = b.
Proof. induction a as [|x a IH]; simpl; [now destruct b|exact IH]. Qed.

Lemma basename_of_join (dir name : string) :
  Py.lacks name PosixPath.sep = true →
  PosixPath.basename (dir +:+ String PosixPath.sep name) = name.
Proof.
  intros Hname. unfold PosixPath.basename, Py.slice_from.
  rewrite rfind_append. cbn [Py.rfind]. rewrite (rfind_lacks _ _ Hname).
  change (0 <=? -1)%Z with false. cbn iota.
  rewrite Ascii.eqb_refl. change (0 <=? 0)%Z with true. cbn iota.
  replace (Py.clip _ _) with (String.length (dir +:+ String PosixPath.sep EmptyString)).
  - replace (dir +:+ String PosixPath.sep name)
      with ((dir +:+ String PosixPath.sep EmptyString) +:+ name)
      by (now rewrite PyFacts.append_assoc).
    apply drop_append.
  - unfold Py.clip. rewrite !length_append. cbn [String.length].
    destruct (_ <? 0)%Z eqn:E; [apply Z.ltb_lt in E; lia|]. lia.
Qed.

(** The normalization of an include target and of a path agree: a path
    that ends in a separator followed by a name without separator has the
    node name of that name, so the include of [foo.h] names the node created
    from a path ending in [/foo.h]. *)
Lemma normalize_target_agrees_with_path (dir name : string) :
  Py.lacks name PosixPath.sep = true →
  filename_normalize (dir +:+ String PosixPath.sep name) = filename_normalize name.
Proof.
  intros Hname. unfold filename_normalize.
  rewrite (basename_of_join dir name Hname).
  replace (PosixPath.basename name) with name; [reflexivity|].
  unfold PosixPath.basename, Py.slice_from. rewrite (rfind_lacks _ _ Hname).
  unfold Py.clip. cbn. now destruct name.
Qed.

(** What [find_neighbors] returns for a file that holds one well-formed
    include line. *)
Lemma find_neighbors_of_include_line (read : string → option string)
    (path : string) (open close : ascii) (name : string) :
  Regex.is_open open = true → Regex.is_close close = true →
  Regex.plain name = true →
  read path = Some (include_line open close name) →
  find_neighbors read path = Some [filename_normalize name].
Proof.
  intros Hopen Hclose Hname Hread. unfold find_neighbors. rewrite Hread.
  rewrite <- (PyFacts.append_empty (include_line open close name)).
  cbn [mbind option_bind].
  now rewrite include_line_is_recognized.
Qed.

(** C7: the group of the pattern is greedy and both delimiter classes hold
    the double quote, so on a line that quotes a second name after the include
    the captured text runs to the LAST closing character of the line; the
    include of [b.h] by [a.c] is then normalized to a name that matches no
    node and the edge from [a] to [b] is lost.  A target opened by a
    less-than sign and closed by a double quote is accepted as well, and so
    is a directive whose target stands on the next line. *)
Theorem comment_after_include_changes_target :
  Regex.findall commented_include = ["b.h" +:+ q +:+ " // see " +:+ q +:+ "c.h"] ∧
  find_neighbors commented_read "./a.c" = Some [" see " +:+ q +:+ "c"] ∧
  body <$> create_graph [] commented_read commented_files false
    = Some [Node "a" None; Node "b" None; Node "c" None] ∧
  Regex.findall ("#include <b.h" +:+ q) = ["b.h"] ∧
  Regex.findall ("#include" +:+ nl +:+ "<b.h>") = ["b.h"].
Proof. repeat split; vm_compute; reflexivity. Qed.

(** ** C8: running twice *)

(** The first loop issues no edges. *)
Lemma proxy_stmts_no_edges (gs files : list string) :
  flat_map (λ s, match s with Edge _ _ _ _ => [s] | Node _ _ => [] end)
    (flat_map (λ p, map proxy_stmt (matching gs p)) files) = [].
Proof.
  induction files as [|p fs IH]; cbn; [reflexivity|].
  rewrite flat_map_app, IH, app_nil_r.
  now induction (matching gs p) as [|g M IHM].
Qed.

Section Reconfigure.

(** Two group lists with the same members and, for every path, the same
    last match. *)
Variables gs1 gs2 : list string.
Hypothesis same_members : ∀ g, g ∈ gs1 ↔ g ∈ gs2.
Hypothesis same_last : ∀ p, last (matching gs1 p) = last (matching gs2 p).

Lemma matching_same_members (p g : string) :
  g ∈ matching gs1 p ↔ g ∈ matching gs2 p.
Proof. rewrite !matching_elem, same_members. tauto. Qed.

Lemma matching_same_nil (p : string) : matching gs1 p = [] ↔ matching gs2 p = [].
Proof. rewrite !matching_nil. now setoid_rewrite same_members. Qed.

Lemma register_file_same (st st' : scan_state) (p : string) :
  same_scan st st' → same_scan (register_file gs1 st p) (register_file gs2 st' p).
Proof.
  intros (Hn & Hp & Hf & Hb). rewrite !register_file_closed.
  unfold same_scan. cbn. split; [|split; [|split]].
  - rewrite Hn. f_equal. f_equal.
    + destruct (decide (matching gs1 p = [])) as [E1|E1].
      * pose proof (proj1 (matching_same_nil p) E1) as E2.
        now rewrite !bool_decide_false by (intros H; now apply H).
      * assert (matching gs2 p ≠ []) as E2
          by (intros E2; now apply E1, matching_same_nil).
        now rewrite !bool_decide_true.
    + apply set_eq. intros x. rewrite !elem_of_list_to_set, !list_elem_of_fmap.
      now setoid_rewrite matching_same_members.
  - now rewrite same_last, Hp.
  - now rewrite Hf.
  - intros s. rewrite !elem_of_app, !list_elem_of_fmap, Hb.
    now setoid_rewrite matching_same_members.
Qed.

Lemma find_nodes_same (files : list string) :
  same_scan (find_nodes gs1 files) (find_nodes gs2 files).
Proof.
  unfold find_nodes.
  assert (same_scan scan_init scan_init) as H by (repeat split; auto).
  revert H. generalize scan_init at 1 3. generalize scan_init.
  induction files as [|p files IH]; intros st st' H; cbn; [exact H|].
  apply IH, register_file_same, H.
Qed.

Lemma folder_in_group_same (folder : string) :
  folder_in_group gs1 folder = folder_in_group gs2 folder.
Proof.
  apply eq_true_iff_eq. rewrite !folder_in_group_true.
  now setoid_rewrite same_members.
Qed.

Lemma processed_same (d : list (string * list string)) :
  processed gs1 d = processed gs2 d.
Proof.
  unfold processed. induction d as [|[k l] d IH]; cbn; [reflexivity|].
  now rewrite IH, folder_in_group_same.
Qed.

(** The two configurations give graphs with the same statements, and the
    same statements of the second loop in the same order. *)
Lemma create_graph_same (read : string → option string) (files : list string)
    (flag : bool) :
  match create_graph gs1 read files flag, create_graph gs2 read files flag with
  | Some g1, Some g2 =>
      strict g1 = strict g2 ∧ node_attr g1 = node_attr g2 ∧
      format g1 = format g2 ∧
      (∀ s, s ∈ body g1 ↔ s ∈ body g2) ∧
      edge_stmts (body g1) = edge_stmts (body g2)
  | None, None => True
  | _, _ => False
  end.
Proof.
  rewrite !create_graph_closed.
  destruct (find_nodes_same files) as (Hn & Hp & Hf & Hb).
  rewrite <- Hn, <- Hp, <- Hf, <- processed_same.
  destruct (mapM _ _) as [ss|]; cbn; [|exact I].
  repeat split; try reflexivity.
  - rewrite !elem_of_app. unfold find_nodes in Hb. rewrite !find_nodes_body in Hb.
    cbn in Hb. rewrite Hb. tauto.
  - rewrite !elem_of_app. unfold find_nodes in Hb. rewrite !find_nodes_body in Hb.
    cbn in Hb. rewrite Hb. tauto.
  - unfold edge_stmts. rewrite !flat_map_app. f_equal.
    now rewrite !proxy_stmts_no_edges.
Qed.

End Reconfigure.

(** Appending the same groups a second time changes neither the members nor
    the last match. *)
Lemma matching_appended_twice (gs added : list string) (p : string) :
  last (matching (gs ++ added) p) = last (matching ((gs ++ added) ++ added) p).
Proof.
  unfold matching. rewrite !filter_app, !last_app.
  now destruct (last (filter _ added)).
Qed.

(** The blacklist only matters as a set. *)
Lemma find_entry_blacklist_ext (bl1 bl2 : list string) (recursive : bool)
    (path : string) (e : entry) :
  (∀ p, p ∈ bl1 ↔ p ∈ bl2) →
  find_entry bl1 recursive path e = find_entry bl2 recursive path e.
Proof.
  intros H. revert recursive path e.
  fix IH 3. intros recursive path [name|name children]; cbn; [reflexivity|].
  destruct recursive; [|reflexivity].
  rewrite (bool_decide_ext _ _ (H (PosixPath.join path name))).
  destruct (bool_decide _); [reflexivity|].
  induction children as [|c children IHc]; cbn; [reflexivity|].
  now rewrite IH, IHc.
Qed.

Lemma node_stmts_elem (b : list stmt) (n : string) (c : option string) :
  (n, c) ∈ node_stmts b ↔ Node n c ∈ b.
Proof.
  unfold node_stmts. rewrite !list_elem_of_In, in_flat_map. split.
  - intros ([n' c'|] & Hs & Hin); cbn in Hin; [|contradiction].
    destruct Hin as [[= -> ->]|[]]. exact Hs.
  - intros H. exists (Node n c). split; [exact H|now left].
Qed.

Lemma edge_stmts_elem (b : list stmt) (e : stmt) :
  e ∈ edge_stmts b ↔ e ∈ b ∧ ∃ t h d c, e = Edge t h d c.
Proof.
  unfold edge_stmts. rewrite !list_elem_of_In, in_flat_map. split.
  - intros ([|t h d c] & Hs & Hin); cbn in Hin; [contradiction|].
    destruct Hin as [<-|[]]. eauto 10.
  - intros [H (t & h & d & c & ->)]. exists (Edge t h d c). split; [exact H|now left].
Qed.

(** C8: [run] extends the class attributes in place, so a second run with
    the same arguments sees every added blacklist entry and every added
    group twice; it still discovers the same files and hands over a graph
    with the same set of node statements and the same set of edges (and
    fails to read a file exactly when the first run does). *)
Theorem run_twice_same_graph (root : string) (tree : list entry)
    (read : string → option string) (cls : class_state) (args : arguments) :
  match (run root tree read cls args).2,
        (run root tree read (run root tree read cls args).1 args).2 with
  | Some g1, Some g2 =>
      strict g1 = strict g2 ∧ node_attr g1 = node_attr g2 ∧ format g1 = format g2 ∧
      (∀ n, n ∈ node_stmts (body g1) ↔ n ∈ node_stmts (body g2)) ∧
      (∀ e, e ∈ edge_stmts (body g1) ↔ e ∈ edge_stmts (body g2))
  | None, None => True
  | _, _ => False
  end.
Proof.
  unfold run. cbn [fst snd base_blacklist base_groups].
  set (bl := base_blacklist cls ++ concat (arg_blacklist args)).
  set (gs := base_groups cls ++ concat (arg_group args)).
  assert (find_files (map (PosixPath.join root) (bl ++ concat (arg_blacklist args)))
            true root tree
          = find_files (map (PosixPath.join root) bl) true root tree) as ->.
  { unfold find_files. induction tree as [|e tree' IH]; cbn; [reflexivity|].
    rewrite IH. f_equal. apply find_entry_blacklist_ext. intros p.
    rewrite !list_elem_of_fmap. setoid_rewrite elem_of_app. subst bl.
    setoid_rewrite elem_of_app. naive_solver. }
  set (files := find_files _ true root tree).
  pose proof (create_graph_same (map (PosixPath.join root) gs)
                (map (PosixPath.join root) (gs ++ concat (arg_group args)))) as Hsame.
  specialize (Hsame ltac:(
    intros g; rewrite !list_elem_of_fmap; setoid_rewrite elem_of_app; subst gs;
    setoid_rewrite elem_of_app; naive_solver)).
  specialize (Hsame ltac:(
    intros p; subst gs; rewrite !map_app; apply matching_appended_twice)).
  specialize (Hsame read files (arg_strict args)).
  destruct (create_graph (map (PosixPath.join root) gs) read files (arg_strict args))
    as [g1|];
  destruct (create_graph _ read files (arg_strict args)) as [g2|];
    simpl; try exact Hsame.
  destruct Hsame as (Hs & Ha & _ & Hb & He).
  split; [exact Hs|]. split; [exact Ha|]. split; [reflexivity|]. split.
  - intros [n c]. rewrite !node_stmts_elem. apply Hb.
  - intros e. now rewrite He.
Qed.

(** ** C9: group membership is a literal prefix test *)

(** C9: with one group rule [G], a file [P] is merged into the proxy of [G]
    exactly when the string [P] starts with the string [G]: then the first
    loop issues the proxy's node statement, puts the proxy into [nodes] and
    maps the base name of [P] to it; otherwise [P] becomes a direct node.
    With any list of rules, the [in_group] flag of either loop is raised
    exactly when some rule is a literal prefix.  No separator is looked for
    after the prefix: the rule [lib] captures [lib2/x.h] and the folder
    [lib2]. *)
Theorem grouping_is_literal_prefix (P G : string) :
  (Py.startswith P G = true ↔ ∃ s, P = G +:+ s) ∧
  find_nodes [G] [P] =
    (if Py.startswith P G then
       {| g_body := [proxy_stmt G];
          nodes := {[group_name G]};
          proxy_nodes := {[filename_normalize P := group_name G]};
          folder_to_files := [(PosixPath.dirname P, [P])] |}
     else
       {| g_body := [];
          nodes := {[filename_normalize P]};
          proxy_nodes := ∅;
          folder_to_files := [(PosixPath.dirname P, [P])] |}) ∧
  (∀ groups st,
     (fold_left (register_group P) groups (st, false)).2 = true ↔
     ∃ G', G' ∈ groups ∧ ∃ s, P = G' +:+ s) ∧
  (∀ groups,
     folder_in_group groups P = true ↔ ∃ G', G' ∈ groups ∧ ∃ s, P = G' +:+ s) ∧
  proxy_nodes (find_nodes ["./lib"] ["./lib2/x.h"]) !! "x" = Some "group - lib" ∧
  folder_in_group ["./lib"] "./lib2" = true.
Proof.
  split; [apply PyFacts.startswith_spec|]. split; [|split; [|split; [|split]]].
  - unfold find_nodes. cbn [fold_left]. rewrite register_file_closed.
    unfold matching. rewrite filter_cons, filter_nil.
    destruct (Py.startswith P G) eqn:E.
    + rewrite decide_True by reflexivity. cbn. f_equal. set_solver.
    + rewrite decide_False by congruence. cbn. f_equal. set_solver.
  - intros groups st. rewrite register_groups_fold. cbn.
    rewrite bool_decide_eq_true. setoid_rewrite <- PyFacts.startswith_spec.
    rewrite <- folder_in_group_true. unfold folder_in_group.
    rewrite folder_in_group_fold. cbn. now rewrite bool_decide_eq_true.
  - intros groups. setoid_rewrite <- PyFacts.startswith_spec.
    apply folder_in_group_true.
  - vm_compute. reflexivity.
  - vm_compute. reflexivity.
Qed.

(** ** C10: a group that matches no file *)



Lemma flat_map_ext_elem {A B : Type} (f f' : A → list B) (l : list A) :
  (∀ x, x ∈ l → f x = f' x) → flat_map f l = flat_map f' l.
Proof.
  induction l as [|x l IH]; intros H; cbn; [reflexivity|].
  rewrite (H x) by left. now rewrite IH by (intros; apply H; now right).
Qed.




(** * Further properties of the code *)

(** ** [filename_normalize] and [filename_extension] *)

Lemma lacks_append (a b : string) (c : ascii) :
  Py.lacks (a +:+ b) c = Py.lacks a c && Py.lacks b c.
Proof.
  induction a as [|x a IH]; simpl; [reflexivity|].
  now rewrite IH, andb_assoc.
Qed.

Lemma rfind_upper (s : string) (c : ascii) :
  (Py.rfind s c < Z.of_nat (String.length s))%Z.
Proof.
  induction s as [|a s IH]; cbn [Py.rfind String.length]; [lia|].
  destruct (0 <=? Py.rfind s c)%Z; [lia|]. destruct (Ascii.eqb a c); lia.
Qed.

Lemma rfind_negative_lacks (s : string) (c : ascii) :
  (Py.rfind s c < 0)%Z → Py.lacks s c = true.
Proof.
  induction s as [|a s IH]; cbn [Py.rfind Py.lacks]; [reflexivity|].
  destruct (0 <=? Py.rfind s c)%Z eqn:E.
  - apply Z.leb_le in E. lia.
  - apply Z.leb_gt in E. destruct (Ascii.eqb a c); [lia|].
    intros _. now rewrite (IH E).
Qed.

Lemma clip_in_range (len : nat) (i : Z) :
  (0 <= i <= Z.of_nat len)%Z → Py.clip len i = Z.to_nat i.
Proof.
  intros H. unfold Py.clip.
  destruct (i <? 0)%Z eqn:E; [apply Z.ltb_lt in E; lia|]. f_equal. lia.
Qed.

Lemma take_all (s : string) : Py.take (String.length s) s = s.
Proof. induction s as [|a s IH]; simpl; [reflexivity|now f_equal]. Qed.

Lemma drop_all (s : string) : Py.drop (String.length s) s = EmptyString.
Proof. induction s as [|a s IH]; simpl; [reflexivity|exact IH]. Qed.

Lemma lacks_take (n : nat) (s : string) (c : ascii) :
  Py.lacks s c = true → Py.lacks (Py.take n s) c = true.
Proof.
  revert s. induction n as [|n IH]; intros [|a s]; simpl; try reflexivity.
  intros [Ha Hs]%andb_true_iff. now rewrite Ha, (IH s Hs).
Qed.

(** What follows the last occurrence of a character does not contain it. *)
Lemma lacks_after_rfind (s : string) (c : ascii) :
  Py.lacks (Py.drop (Z.to_nat (Py.rfind s c + 1)) s) c = true.
Proof.
  induction s as [|a s IH]; cbn [Py.rfind]; [reflexivity|].
  destruct (0 <=? Py.rfind s c)%Z eqn:E.
  - apply Z.leb_le in E.
    replace (Z.to_nat (Py.rfind s c + 1 + 1)) with (S (Z.to_nat (Py.rfind s c + 1)))
      by lia.
    exact IH.
  - apply Z.leb_gt in E. pose proof (rfind_negative_lacks s c E) as Hs.
    destruct (Ascii.eqb a c) eqn:Ha; simpl; [exact Hs|].
    now rewrite Ha, Hs.
Qed.

Lemma basename_lacks_sep (p : string) :
  Py.lacks (PosixPath.basename p) PosixPath.sep = true.
Proof.
  unfold PosixPath.basename, Py.slice_from.
  rewrite clip_in_range
    by (pose proof (rfind_lower p PosixPath.sep);
        pose proof (rfind_upper p PosixPath.sep); lia).
  apply lacks_after_rfind.
Qed.

Lemma basename_plain (name : string) :
  Py.lacks name PosixPath.sep = true → PosixPath.basename name = name.
Proof.
  intros H. unfold PosixPath.basename, Py.slice_from.
  rewrite (rfind_lacks _ _ H). unfold Py.clip. cbn. now destruct name.
Qed.

(** X1: the node name of [dir/stem.ext] is [stem]: the directory part and
    the final extension go, earlier dots of the stem stay; the same holds
    for the bare file name [stem.ext]. *)
Theorem normalize_strips_directory_and_last_extension (dir stem ext : string) :
  Py.lacks stem PosixPath.sep = true →
  Py.lacks ext PosixPath.sep = true →
  Py.lacks ext "."%char = true →
  filename_normalize (dir +:+ String PosixPath.sep (stem +:+ String "."%char ext)) = stem ∧
  filename_normalize (stem +:+ String "."%char ext) = stem.
Proof.
  intros Hstem Hext Hdot.
  assert (Py.lacks (stem +:+ String "."%char ext) PosixPath.sep = true) as Hname.
  { rewrite lacks_append, Hstem. cbn [Py.lacks]. now rewrite Hext. }
  assert (filename_normalize (stem +:+ String "."%char ext) = stem) as Hbare.
  { unfold filename_normalize. rewrite (basename_plain _ Hname).
    rewrite rfind_append. cbn [Py.rfind]. rewrite (rfind_lacks _ _ Hdot).
    change (0 <=? -1)%Z with false. cbn iota.
    rewrite Ascii.eqb_refl. change (0 <=? 0)%Z with true. cbn iota.
    replace (Z.of_nat (String.length stem) + 0 =? -1)%Z with false
      by (symmetry; apply Z.eqb_neq; lia).
    unfold Py.slice_to. rewrite clip_in_range
      by (rewrite length_append; cbn [String.length]; lia).
    replace (Z.to_nat (Z.of_nat (String.length stem) + 0)) with (String.length stem)
      by lia.
    apply take_append. }
  split; [|exact Hbare].
  now rewrite (normalize_target_agrees_with_path dir _ Hname).
Qed.

Lemma normalize_strips_directory_and_last_extension_witness :
  filename_normalize ("./src" +:+ String PosixPath.sep ("a.tar" +:+ String "."%char "h"))
    = "a.tar" ∧
  filename_normalize ("a.tar" +:+ String "."%char "h") = "a.tar".
Proof.
  apply (normalize_strips_directory_and_last_extension "./src" "a.tar" "h");
    vm_compute; reflexivity.
Defined.

(** X2: a file name without any dot is its own node name, with or without
    a directory in front. *)
Theorem normalize_keeps_dotless_name (dir name : string) :
  Py.lacks name PosixPath.sep = true →
  Py.lacks name "."%char = true →
  filename_normalize (dir +:+ String PosixPath.sep name) = name ∧
  filename_normalize name = name.
Proof.
  intros Hsep Hdot.
  assert (filename_normalize name = name) as Hbare.
  { unfold filename_normalize. rewrite (basename_plain _ Hsep), (rfind_lacks _ _ Hdot).
    change (-1 =? -1)%Z with true. cbn iota. unfold Py.slice_to.
    rewrite clip_in_range by lia. rewrite Nat2Z.id. apply take_all. }
  split; [|exact Hbare].
  now rewrite (normalize_target_agrees_with_path dir _ Hsep).
Qed.

Lemma normalize_keeps_dotless_name_witness :
  filename_normalize ("./src" +:+ String PosixPath.sep "Makefile") = "Makefile" ∧
  filename_normalize "Makefile" = "Makefile".
Proof.
  apply (normalize_keeps_dotless_name "./src" "Makefile"); vm_compute; reflexivity.
Defined.

Lemma normalize_has_no_separator_aux (path : string) :
  Py.lacks (filename_normalize path) PosixPath.sep = true.
Proof.
  unfold filename_normalize, Py.slice_to. apply lacks_take, basename_lacks_sep.
Qed.

(** X3: a node name never contains a separator, whatever the path. *)
Theorem normalize_has_no_separator (path : string) :
  Py.lacks (filename_normalize path) PosixPath.sep = true.
Proof.
  unfold filename_normalize, Py.slice_to. apply lacks_take, basename_lacks_sep.
Qed.

(** X4: a path that ends in a separator has the empty node name, so every
    group given with a trailing separator is named [group - ] and all such
    groups share one proxy node. *)
Theorem trailing_separator_gives_empty_name (dir : string) :
  filename_normalize (dir +:+ String PosixPath.sep EmptyString) = EmptyString ∧
  group_name (dir +:+ String PosixPath.sep EmptyString) = "group - ".
Proof.
  assert (filename_normalize (dir +:+ String PosixPath.sep EmptyString) = EmptyString)
    as H by (now rewrite (normalize_target_agrees_with_path dir EmptyString eq_refl)).
  split; [exact H|]. unfold group_name. now rewrite H.
Qed.

Lemma extension_of_suffix (stem rest : string) :
  Py.lacks rest "."%char = true →
  filename_extension (stem +:+ String "."%char rest) = String "."%char rest.
Proof.
  intros Hdot. unfold filename_extension, Py.slice_from.
  rewrite rfind_append. cbn [Py.rfind]. rewrite (rfind_lacks _ _ Hdot).
  change (0 <=? -1)%Z with false. cbn iota.
  rewrite Ascii.eqb_refl. change (0 <=? 0)%Z with true. cbn iota.
  rewrite clip_in_range by (rewrite length_append; cbn [String.length]; lia).
  replace (Z.to_nat (Z.of_nat (String.length stem) + 0)) with (String.length stem)
    by lia.
  apply drop_append.
Qed.

Lemma valid_extension_is_suffix_aux (path : string) :
  filename_extension path ∈ valid_extensions →
  ∃ stem ext, ext ∈ valid_extensions ∧ path = stem +:+ ext.
Proof.
  intros H. exists (Py.take (Py.clip (String.length path) (Py.rfind path "."%char)) path),
    (filename_extension path).
  split; [exact H|]. unfold filename_extension, Py.slice_from.
  symmetry. apply PyFacts.take_drop.
Qed.

(** X5: the extension test of the scanner is a suffix test: the extension
    of a path is one of the five valid ones exactly when the path ends in
    that extension; the extension found is then that suffix. *)
Theorem valid_extension_is_suffix (path : string) :
  (filename_extension path ∈ valid_extensions ↔
   ∃ stem ext, ext ∈ valid_extensions ∧ path = stem +:+ ext) ∧
  (∀ stem ext, ext ∈ valid_extensions → filename_extension (stem +:+ ext) = ext).
Proof.
  assert (∀ stem ext, ext ∈ valid_extensions →
            filename_extension (stem +:+ ext) = ext) as Hsuffix.
  { intros stem ext Hext. unfold valid_extensions, valid_headers, valid_sources in Hext.
    cbn in Hext. repeat (apply elem_of_cons in Hext as [->|Hext]);
      [apply extension_of_suffix; reflexivity..|inversion Hext]. }
  split; [|exact Hsuffix]. split.
  - apply valid_extension_is_suffix_aux.
  - intros (stem & ext & Hext & ->). now rewrite (Hsuffix stem ext Hext).
Qed.

(** X6: for a path without any dot, [rfind] answers -1 and the slice
    [path[-1:]] is taken: the extension is the last character of the path,
    not the empty string, and it is never a valid extension. *)
Theorem dotless_path_extension_is_last_character (path : string) :
  Py.lacks path "."%char = true →
  filename_extension path = Py.drop (String.length path - 1) path ∧
  filename_extension path ∉ valid_extensions.
Proof.
  intros Hdot. split.
  - unfold filename_extension, Py.slice_from. rewrite (rfind_lacks _ _ Hdot).
    f_equal. unfold Py.clip. change (-1 <? 0)%Z with true. cbn iota. lia.
  - intros (stem & ext & Hext & ->)%valid_extension_is_suffix_aux.
    rewrite lacks_append in Hdot. apply andb_true_iff in Hdot as [_ Hdot].
    unfold valid_extensions, valid_headers, valid_sources in Hext. cbn in Hext.
    repeat (apply elem_of_cons in Hext as [->|Hext]); try discriminate Hdot.
    inversion Hext.
Qed.

Lemma dotless_path_extension_is_last_character_witness :
  filename_extension "Makefile" = Py.drop (String.length "Makefile" - 1) "Makefile" ∧
  filename_extension "Makefile" ∉ valid_extensions.
Proof.
  apply (dotless_path_extension_is_last_character "Makefile"). vm_compute. reflexivity.
Defined.

(** ** [find_files] *)

(** Induction over a tree, with the property of the children at hand. *)
Lemma entry_nested_ind (P : entry → Prop) :
  (∀ name, P (File name)) →
  (∀ name children, Forall P children → P (Dir name children)) →
  ∀ e, P e.
Proof.
  intros HFile HDir. fix IH 1. intros [name|name children]; [apply HFile|].
  apply HDir. induction children as [|c children IHc]; constructor;
    [apply IH|exact IHc].
Qed.

Lemma find_entry_valid (blacklist : list string) (recursive : bool) (path : string)
    (e : entry) (f : string) :
  f ∈ find_entry blacklist recursive path e →
  filename_extension f ∈ valid_extensions.
Proof.
  revert recursive path.
  induction e as [name|name children IH] using entry_nested_ind;
    intros recursive path; cbn [find_entry].
  - case_bool_decide as H; [|intros Hf; inversion Hf].
    intros ->%list_elem_of_singleton. exact H.
  - destruct recursive.
    + case_bool_decide; [intros Hf; inversion Hf|].
      intros (c & Hc & Hf)%list_elem_of_In%in_flat_map.
      rewrite Forall_forall in IH.
      apply (IH c (proj2 (list_elem_of_In _ _) Hc) true (PosixPath.join path name)).
      now apply list_elem_of_In.
    + case_bool_decide as H; [|intros Hf; inversion Hf].
      intros ->%list_elem_of_singleton. exact H.
Qed.

Lemma find_entry_valid_files (blacklist : list string) (recursive : bool)
    (path : string) (entries : list entry) (f : string) :
  f ∈ find_files blacklist recursive path entries →
  filename_extension f ∈ valid_extensions.
Proof.
  intros (e & _ & Hf)%list_elem_of_In%in_flat_map.
  apply list_elem_of_In in Hf. exact (find_entry_valid _ _ _ _ _ Hf).
Qed.

(** X7: every path the scanner returns ends in one of the five valid
    extensions, in recursive and in flat mode, whatever the blacklist. *)
Theorem discovered_files_have_valid_extension (blacklist : list string)
    (recursive : bool) (path : string) (entries : list entry) (f : string) :
  f ∈ find_files blacklist recursive path entries →
  filename_extension f ∈ valid_extensions ∧
  ∃ stem ext, ext ∈ valid_extensions ∧ f = stem +:+ ext.
Proof.
  intros Hf.
  assert (filename_extension f ∈ valid_extensions) as H.
  { unfold find_files in Hf. apply list_elem_of_In, in_flat_map in Hf as (e & _ & Hf).
    apply list_elem_of_In in Hf. exact (find_entry_valid _ _ _ _ _ Hf). }
  split; [exact H|]. now apply valid_extension_is_suffix_aux.
Qed.

Lemma discovered_files_have_valid_extension_witness :
  filename_extension "./lib/x.c" ∈ valid_extensions ∧
  ∃ stem ext, ext ∈ valid_extensions ∧ "./lib/x.c" = stem +:+ ext.
Proof.
  apply (discovered_files_have_valid_extension [] true "."
           [File "README"; Dir "lib" [File "x.c"]] "./lib/x.c").
  vm_compute. left.
Defined.

Lemma flat_map_sublist {A B : Type} (f f' : A → list B) (l : list A) :
  (∀ x, x ∈ l → f x `sublist_of` f' x) → flat_map f l `sublist_of` flat_map f' l.
Proof.
  induction l as [|x l IH]; intros H; cbn [flat_map]; [constructor|].
  apply sublist_app; [apply H; left|apply IH; intros; apply H; now right].
Qed.

Lemma find_entry_sublist (bl1 bl2 : list string) (recursive : bool) (path : string)
    (e : entry) :
  (∀ b, b ∈ bl1 → b ∈ bl2) →
  find_entry bl2 recursive path e `sublist_of` find_entry bl1 recursive path e.
Proof.
  intros Hbl. revert recursive path.
  induction e as [name|name children IH] using entry_nested_ind;
    intros recursive path; cbn [find_entry]; [reflexivity|].
  destruct recursive; [|reflexivity].
  destruct (bool_decide (PosixPath.join path name ∈ bl2)) eqn:E2;
    [apply sublist_nil_l|].
  rewrite bool_decide_false
    by (intros H1; apply bool_decide_eq_false in E2; exact (E2 (Hbl _ H1))).
  apply flat_map_sublist. rewrite Forall_forall in IH. intros c Hc. now apply IH.
Qed.

(** X8: the blacklist only removes: with more blacklist entries the
    scanner returns a subsequence of what it returned before, the order of
    the surviving files unchanged. *)
Theorem larger_blacklist_finds_subsequence (bl1 bl2 : list string)
    (recursive : bool) (path : string) (entries : list entry) :
  (∀ b, b ∈ bl1 → b ∈ bl2) →
  find_files bl2 recursive path entries `sublist_of`
  find_files bl1 recursive path entries.
Proof.
  intros Hbl. unfold find_files. apply flat_map_sublist.
  intros e _. now apply find_entry_sublist.
Qed.

Lemma larger_blacklist_finds_subsequence_witness :
  find_files ["./.git"; "./lib"] true "." [File "a.h"; Dir "lib" [File "x.c"]]
    `sublist_of`
  find_files ["./.git"] true "." [File "a.h"; Dir "lib" [File "x.c"]].
Proof.
  apply (larger_blacklist_finds_subsequence ["./.git"] ["./.git"; "./lib"]).
  intros b Hb. apply list_elem_of_singleton in Hb as ->. left.
Defined.

Lemma endswith_append (a b : string) (c : ascii) :
  b ≠ EmptyString → Py.endswith (a +:+ b) c = Py.endswith b c.
Proof.
  intros Hb. induction a as [|x a IH]; [reflexivity|].
  cbn [String.append Py.endswith]. destruct (a +:+ b) eqn:E; [|exact IH].
  destruct a; [cbn in E; contradiction|discriminate E].
Qed.

Lemma lacks_endswith (s : string) (c : ascii) :
  Py.lacks s c = true → Py.endswith s c = false.
Proof.
  induction s as [|a s IH]; [reflexivity|]. cbn [Py.lacks Py.endswith].
  intros [Ha Hs]%andb_true_iff. destruct s; [now apply negb_true_iff|exact (IH Hs)].
Qed.

(** The path of a directory entry never ends in a separator. *)
Lemma join_scandir_name (path name : string) :
  scandir_name name = true →
  Py.endswith (PosixPath.join path name) PosixPath.sep = false.
Proof.
  unfold scandir_name. intros [Hne Hsep]%andb_true_iff.
  assert (name ≠ EmptyString) as Hname by (intros ->; discriminate Hne).
  assert (String PosixPath.sep name ≠ EmptyString) as Hname' by discriminate.
  pose proof (lacks_endswith _ _ Hsep) as Hend.
  unfold PosixPath.join.
  destruct (Py.startswith name "/"); [exact Hend|].
  destruct (Py.is_empty path || Py.endswith path PosixPath.sep).
  - now rewrite endswith_append.
  - change (path +:+ "/" +:+ name) with (path +:+ String PosixPath.sep name).
    rewrite (endswith_append path _ _ Hname').
    destruct name; [contradiction|exact Hend].
Qed.

Lemma find_entry_inert_entry (bl1 bl2 : list string) (b : string)
    (recursive : bool) (path : string) (e : entry) :
  Py.endswith b PosixPath.sep = true →
  scandir_tree e = true →
  find_entry (bl1 ++ b :: bl2) recursive path e
    = find_entry (bl1 ++ bl2) recursive path e.
Proof.
  intros Hb. revert recursive path.
  induction e as [name|name children IH] using entry_nested_ind;
    intros recursive path; cbn [find_entry scandir_tree]; [reflexivity|].
  intros [Hname Hch]%andb_true_iff. destruct recursive; [|reflexivity].
  assert (PosixPath.join path name ≠ b) as Hne.
  { intros <-. rewrite (join_scandir_name _ _ Hname) in Hb. discriminate. }
  rewrite (bool_decide_ext (PosixPath.join path name ∈ bl1 ++ b :: bl2)
             (PosixPath.join path name ∈ bl1 ++ bl2))
    by (rewrite !elem_of_app, elem_of_cons; tauto).
  destruct (bool_decide _); [reflexivity|].
  apply flat_map_ext_elem. intros c Hc. rewrite Forall_forall in IH.
  apply (IH c Hc). rewrite forallb_forall in Hch. apply Hch.
  now apply list_elem_of_In.
Qed.

(** X9: directories are excluded by equality of their path with a
    blacklist entry, and the path of a directory entry never ends in a
    separator: a blacklist entry that ends in a separator (as [build/]
    joined to the root does) excludes nothing. *)
Theorem blacklist_entry_with_trailing_separator_is_inert (bl1 bl2 : list string)
    (b : string) (recursive : bool) (path : string) (entries : list entry) :
  Py.endswith b PosixPath.sep = true →
  forallb scandir_tree entries = true →
  find_files (bl1 ++ b :: bl2) recursive path entries
    = find_files (bl1 ++ bl2) recursive path entries.
Proof.
  intros Hb Htree. unfold find_files.
  induction entries as [|e entries IH]; cbn [flat_map]; [reflexivity|].
  cbn [forallb] in Htree. apply andb_true_iff in Htree as [He Htree].
  now rewrite (find_entry_inert_entry _ _ _ _ _ _ Hb He), (IH Htree).
Qed.

Lemma blacklist_entry_with_trailing_separator_is_inert_witness :
  find_files (["./.git"] ++ PosixPath.join "." "build/" :: []) true "."
    [File "main.c"; Dir "build" [File "gen.h"]]
  = find_files (["./.git"] ++ []) true "." [File "main.c"; Dir "build" [File "gen.h"]].
Proof.
  apply (blacklist_entry_with_trailing_separator_is_inert ["./.git"] []
           (PosixPath.join "." "build/") true "."
           [File "main.c"; Dir "build" [File "gen.h"]]);
    vm_compute; reflexivity.
Defined.

(** ** [run] *)

(** X10: a directory directly below the root whose name is in the class
    blacklist (as [.git], [.settings] and [.vscode] are from the start) or
    among the names given to this run is not scanned: the run behaves as if
    the directory were not there, and the name stays in the class blacklist
    for the runs that follow. *)
Theorem blacklisted_directory_is_invisible (root : string) (l1 l2 : list entry)
    (d : string) (children : list entry) (read : string → option string)
    (cls : class_state) (args : arguments) :
  d ∈ base_blacklist cls ∨ d ∈ concat (arg_blacklist args) →
  run root (l1 ++ Dir d children :: l2) read cls args
    = run root (l1 ++ l2) read cls args ∧
  d ∈ base_blacklist (run root (l1 ++ Dir d children :: l2) read cls args).1.
Proof.
  intros Hd.
  assert (d ∈ base_blacklist cls ++ concat (arg_blacklist args)) as Hin
    by (apply elem_of_app; exact Hd).
  split; [|exact Hin].
  unfold run.
  replace (find_files _ true root (l1 ++ Dir d children :: l2))
    with (find_files (map (PosixPath.join root)
                        (base_blacklist cls ++ concat (arg_blacklist args)))
            true root (l1 ++ l2)); [reflexivity|].
  unfold find_files. rewrite !flat_map_app. f_equal. cbn [flat_map find_entry].
  rewrite bool_decide_true; [reflexivity|].
  apply list_elem_of_fmap. eauto.
Qed.

Lemma blacklisted_directory_is_invisible_witness :
  run "." ([File "a.h"] ++ Dir ".git" [File "hook.c"] :: []) ab_read class_init
      {| arg_blacklist := []; arg_group := []; arg_strict := false; arg_format := "svg" |}
    = run "." ([File "a.h"] ++ []) ab_read class_init
        {| arg_blacklist := []; arg_group := []; arg_strict := false; arg_format := "svg" |} ∧
  ".git" ∈ base_blacklist
    (run "." ([File "a.h"] ++ Dir ".git" [File "hook.c"] :: []) ab_read class_init
       {| arg_blacklist := []; arg_group := []; arg_strict := false;
          arg_format := "svg" |}).1.
Proof.
  apply (blacklisted_directory_is_invisible "." [File "a.h"] [] ".git" [File "hook.c"]).
  left. left.
Defined.

(** X11: the class attributes carry over: a run after another run, in the
    same process, leaves the class attributes and hands over the graph of a
    single run that was given the blacklist and group arguments of both (and
    the flags of the second); groups and blacklist entries of the first run
    are still in force in the second. *)
Theorem run_after_run_merges_arguments (root : string) (tree : list entry)
    (read : string → option string) (cls : class_state) (a1 a2 : arguments) :
  run root tree read (run root tree read cls a1).1 a2
    = run root tree read cls (merge_arguments a1 a2).
Proof.
  unfold run, merge_arguments. cbn [fst base_blacklist base_groups arg_blacklist
    arg_group arg_strict arg_format].
  now rewrite !concat_app, !app_assoc.
Qed.

(** X12: the fall-back colour [black] is never used by [run]: the scanner
    only returns files with a valid extension, so every edge of the graph is
    red, with a tail that is the node of a discovered header, or blue, with
    a tail that is the node of a discovered source file. *)
Theorem run_edges_are_red_or_blue (root : string) (tree : list entry)
    (read : string → option string) (cls : class_state) (args : arguments)
    (g : Digraph) (t h d c : string) :
  (run root tree read cls args).2 = Some g →
  Edge t h d c ∈ body g →
  ∃ path,
    path ∈ find_files (map (PosixPath.join root)
                         (base_blacklist cls ++ concat (arg_blacklist args)))
             true root tree ∧
    t = filename_normalize path ∧
    ((c = "red" ∧ filename_extension path ∈ valid_headers.1) ∨
     (c = "blue" ∧ filename_extension path ∈ valid_sources.1)).
Proof.
  unfold run. cbn [snd]. set (files := find_files _ true root tree).
  set (groups := map (PosixPath.join root) _).
  destruct (create_graph groups read files (arg_strict args)) as [g0|] eqn:Hg0;
    cbn; [|discriminate].
  intros [= <-]. cbn [body]. intros Hs.
  destruct (edge_origin _ _ _ _ _ _ _ _ _ Hg0 Hs)
    as (path & code & target & Hp & _ & _ & _ & He).
  exists path. split; [exact Hp|].
  apply neighbor_edge_elem in He as [_ [[_ [= -> _ _ ->]]|[_ (gn & _ & [= -> _ _ ->])]]];
    (split; [reflexivity|]);
    apply find_entry_valid_files in Hp;
    unfold valid_extensions, valid_headers, valid_sources in Hp; cbn in Hp;
    repeat (apply elem_of_cons in Hp as [E|Hp]; [rewrite E; vm_compute; set_solver|]);
    inversion Hp.
Qed.

Lemma run_edges_are_red_or_blue_witness :
  ∃ path,
    path ∈ find_files (map (PosixPath.join ".")
                         (base_blacklist class_init ++ concat []))
             true "." [File "a.h"; File "b.h"] ∧
    "a" = filename_normalize path ∧
    (("red" = "red" ∧ filename_extension path ∈ valid_headers.1) ∨
     ("red" = "blue" ∧ filename_extension path ∈ valid_sources.1)).
Proof.
  apply (run_edges_are_red_or_blue "." [File "a.h"; File "b.h"] ab_read class_init
           {| arg_blacklist := []; arg_group := []; arg_strict := false;
              arg_format := "pdf" |}
           {| strict := false;
              node_attr := [("color", "lightblue2"); ("style", "filled")];
              format := "pdf";
              body := [Node "a" None; Edge "a" "b" "back" "red"; Node "b" None] |}
           "a" "b" "back" "red").
  - vm_compute. reflexivity.
  - right. left.
Defined.

(** ** [create_graph] *)

(** X13: the construction fails exactly when some discovered file in an
    uncaptured folder cannot be read; files in captured folders are never
    opened and cannot make it fail; when it succeeds, every file of an
    uncaptured folder was read. *)
Theorem create_graph_fails_on_unreadable_file (groups : list string)
    (read : string → option string) (files : list string) (strict : bool) :
  (create_graph groups read files strict = None ↔
   ∃ p, p ∈ files ∧ folder_in_group groups (PosixPath.dirname p) = false ∧
        read p = None) ∧
  (is_Some (create_graph groups read files strict) ↔
   ∀ p, p ∈ files → folder_in_group groups (PosixPath.dirname p) = false →
        is_Some (read p)).
Proof.
  split; [apply create_graph_None|]. split.
  - intros [g Hg] p Hp E.
    destruct (created_graph_reads_files _ _ _ _ _ _ Hg Hp E) as [code ->]. eauto.
  - intros H. destruct (create_graph groups read files strict) eqn:Hg; [eauto|].
    apply create_graph_None in Hg as (p & Hp & E & Hr).
    destruct (H p Hp E) as [code Hc]. congruence.
Qed.

(** X14: the node statements of the graph.  The plain ones are the node
    names of the discovered files in uncaptured folders; the coloured ones
    are light green and carry the names of the groups that are a prefix of
    some discovered file. *)
Theorem node_statements_of_graph (groups : list string)
    (read : string → option string) (files : list string) (strict : bool)
    (g : Digraph) :
  create_graph groups read files strict = Some g →
  (∀ n, Node n None ∈ body g ↔
        ∃ p, p ∈ files ∧ folder_in_group groups (PosixPath.dirname p) = false ∧
             n = filename_normalize p) ∧
  (∀ n c, Node n (Some c) ∈ body g ↔
          c = "lightgreen" ∧
          ∃ p gr, p ∈ files ∧ gr ∈ groups ∧ Py.startswith p gr = true ∧
                  n = group_name gr).
Proof.
  intros Hg. split.
  - intros n. split.
    + intros Hs. apply (create_graph_elem _ _ _ _ _ _ Hg) in Hs
        as [(p & gr & _ & _ & [=])|(p & ss & Hp & E & Hf & Hs)].
      apply (file_stmts_elem _ _ _ _ _ _ Hf) in Hs
        as [[= ->]|(code & target & _ & _ & Hs)]; [eauto|].
      apply neighbor_edge_elem in Hs as [_ [[_ [=]]|[_ (gn & _ & [=])]]].
    + intros (p & Hp & E & ->). eapply plain_node_in_graph; eassumption.
  - intros n c. split.
    + intros Hs. apply (create_graph_elem _ _ _ _ _ _ Hg) in Hs
        as [(p & gr & Hp & [Hgr E]%matching_elem & [= -> <-])|(p & ss & _ & _ & Hf & Hs)].
      * split; [reflexivity|]. eauto 10.
      * apply (file_stmts_elem _ _ _ _ _ _ Hf) in Hs
          as [[=]|(code & target & _ & _ & Hs)].
        apply neighbor_edge_elem in Hs as [_ [[_ [=]]|[_ (gn & _ & [=])]]].
    + intros (-> & p & gr & Hp & Hgr & E & ->).
      apply (create_graph_elem _ _ _ _ _ _ Hg). left. exists p, gr.
      split; [exact Hp|]. split; [now apply matching_elem|reflexivity].
Qed.

Lemma node_statements_of_graph_witness :
  let g := {| strict := false;
              node_attr := [("color", "lightblue2"); ("style", "filled")];
              format := "pdf";
              body := [Node "group - lib" (Some "lightgreen");
                       Node "group - lib" (Some "lightgreen");
                       Node "main" None;
                       Edge "main" "group - lib" "back" "blue"] |} in
  (∀ n, Node n None ∈ body g ↔
        ∃ p, p ∈ lib_files ∧ folder_in_group ["./lib"] (PosixPath.dirname p) = false ∧
             n = filename_normalize p) ∧
  (∀ n c, Node n (Some c) ∈ body g ↔
          c = "lightgreen" ∧
          ∃ p gr, p ∈ lib_files ∧ gr ∈ ["./lib"] ∧ Py.startswith p gr = true ∧
                  n = group_name gr).
Proof.
  apply (node_statements_of_graph ["./lib"] lib_read lib_files false).
  vm_compute. reflexivity.
Defined.

(** X15: both ends of every edge have a node statement in the graph: the
    tail the plain statement of the including file, the head the plain
    statement of a discovered file or the statement of a group. *)
Theorem edge_ends_have_node_statements (groups : list string)
    (read : string → option string) (files : list string) (strict : bool)
    (g : Digraph) (t h d c : string) :
  create_graph groups read files strict = Some g →
  Edge t h d c ∈ body g →
  Node t None ∈ body g ∧
  (Node h None ∈ body g ∨ Node h (Some "lightgreen") ∈ body g).
Proof.
  intros Hg Hs. split.
  - destruct (edge_origin _ _ _ _ _ _ _ _ _ Hg Hs)
      as (path & code & target & Hp & E & _ & _ & He).
    apply neighbor_edge_elem in He as [_ [[_ [= -> _]]|[_ (gn & _ & [= -> _])]]];
      eapply plain_node_in_graph; eassumption.
  - pose proof (edge_head_is_known _ _ _ _ _ _ _ _ _ Hg Hs) as Hh.
    apply find_nodes_nodes in Hh as [Hh|(p & Hp & [[HM ->]|(gr & Hgr & ->)])].
    + cbn in Hh. set_solver.
    + left. eapply plain_node_in_graph; [eassumption..|].
      apply folder_in_group_false. intros gr Hgr.
      destruct (Py.startswith (PosixPath.dirname p) gr) eqn:E; [|reflexivity].
      apply PyFacts.startswith_dirname in E.
      rewrite (proj1 (matching_nil groups p) HM gr Hgr) in E. discriminate.
    + right. apply (create_graph_elem _ _ _ _ _ _ Hg). left. eauto.
Qed.

Lemma edge_ends_have_node_statements_witness :
  let b := [Node "group - lib" (Some "lightgreen");
            Node "group - lib" (Some "lightgreen");
            Node "main" None;
            Edge "main" "group - lib" "back" "blue"] in
  Node "main" None ∈ b ∧
  (Node "group - lib" None ∈ b ∨ Node "group - lib" (Some "lightgreen") ∈ b).
Proof.
  apply (edge_ends_have_node_statements ["./lib"] lib_read lib_files false
           {| strict := false;
              node_attr := [("color", "lightblue2"); ("style", "filled")];
              format := "pdf";
              body := [Node "group - lib" (Some "lightgreen");
                       Node "group - lib" (Some "lightgreen");
                       Node "main" None;
                       Edge "main" "group - lib" "back" "blue"] |}
           "main" "group - lib" "back" "blue").
  - vm_compute. reflexivity.
  - do 3 right. left.
Defined.

(** X16: the graph has no edge from a node to itself as long as no
    discovered file has the name of a group node as its base name. *)
Theorem no_self_edge_without_name_clash (groups : list string)
    (read : string → option string) (files : list string) (strict : bool)
    (g : Digraph) :
  (∀ p gr, p ∈ files → gr ∈ groups → filename_normalize p ≠ group_name gr) →
  create_graph groups read files strict = Some g →
  ∀ x d c, Edge x x d c ∉ body g.
Proof.
  intros Hclash Hg x d c Hs.
  destruct (self_edge_only_through_proxy _ _ _ _ _ _ _ _ Hg Hs)
    as (path & code & target & Hp & _ & _ & -> & _ & Hpr).
  apply find_nodes_proxy in Hpr as [Hpr|(p' & gr & _ & [Hgr _]%matching_elem & _ & E)].
  - cbn in Hpr. rewrite lookup_empty in Hpr. discriminate.
  - exact (Hclash path gr Hp Hgr E).
Qed.

Lemma no_self_edge_without_name_clash_witness :
  Edge "main" "main" "back" "blue" ∉ [Node "group - lib" (Some "lightgreen");
                                      Node "group - lib" (Some "lightgreen");
                                      Node "main" None;
                                      Edge "main" "group - lib" "back" "blue"].
Proof.
  apply (no_self_edge_without_name_clash ["./lib"] lib_read lib_files false
           {| strict := false;
              node_attr := [("color", "lightblue2"); ("style", "filled")];
              format := "pdf";
              body := [Node "group - lib" (Some "lightgreen");
                       Node "group - lib" (Some "lightgreen");
                       Node "main" None;
                       Edge "main" "group - lib" "back" "blue"] |}).
  - intros p gr Hp Hgr. apply list_elem_of_singleton in Hgr as ->.
    unfold lib_files in Hp.
    repeat (apply elem_of_cons in Hp as [->|Hp]; [vm_compute; discriminate|]).
    inversion Hp.
  - vm_compute. reflexivity.
Defined.

Lemma edge_stmts_app (b1 b2 : list stmt) :
  edge_stmts (b1 ++ b2) = edge_stmts b1 ++ edge_stmts b2.
Proof. unfold edge_stmts. apply flat_map_app. Qed.

Lemma edge_stmts_neighbor_edge (nodes : gset string) (proxy_nodes : gmap string string)
    (node color x : string) :
  edge_stmts (neighbor_edge nodes proxy_nodes node color x)
    = neighbor_edge nodes proxy_nodes node color x.
Proof.
  unfold neighbor_edge, add_neighbor.
  repeat case_bool_decide; try destruct (proxy_nodes !! x); reflexivity.
Qed.

Lemma edge_stmts_file_stmts (read : string → option string) (nodes : gset string)
    (proxy_nodes : gmap string string) (path : string) (ss : list stmt) :
  file_stmts read nodes proxy_nodes path = Some ss →
  edge_stmts ss = file_edges read nodes proxy_nodes path.
Proof.
  unfold file_stmts, file_edges, find_neighbors.
  destruct (read path) as [code|]; cbn [mbind option_bind]; [|discriminate].
  intros [= <-]. change (edge_stmts (?s :: ?l)) with (edge_stmts [s] ++ edge_stmts l).
  cbn [edge_stmts flat_map app].
  induction (map filename_normalize (Regex.findall code)) as [|x l IH];
    cbn [flat_map]; [reflexivity|].
  fold (edge_stmts (neighbor_edge nodes proxy_nodes (filename_normalize path)
                      (edge_color (filename_extension path)) x ++
                    flat_map (neighbor_edge nodes proxy_nodes (filename_normalize path)
                                (edge_color (filename_extension path))) l)).
  rewrite edge_stmts_app, edge_stmts_neighbor_edge. f_equal. exact IH.
Qed.

(** X17: the edges of the graph, in order and with their multiplicity, are
    the edges of the processed files one after the other, each file giving
    one edge per resolved include directive in the order of the
    directives: an include that occurs twice gives two edges. *)
Theorem edges_follow_files_and_directives (groups : list string)
    (read : string → option string) (files : list string) (strict : bool)
    (g : Digraph) :
  create_graph groups read files strict = Some g →
  edge_stmts (body g) =
  flat_map (file_edges read (nodes (find_nodes groups files))
              (proxy_nodes (find_nodes groups files)))
           (processed groups (folder_to_files (find_nodes groups files))).
Proof.
  rewrite create_graph_closed.
  destruct (mapM _ _) as [sss|] eqn:HM; cbn [fmap option_fmap option_map];
    [|discriminate].
  intros [= <-]. cbn [body]. rewrite edge_stmts_app.
  unfold edge_stmts at 1. rewrite proxy_stmts_no_edges. cbn [app].
  apply mapM_Some in HM.
  induction HM as [|p ss l sss Hf _ IH]; [reflexivity|].
  cbn [concat flat_map]. rewrite edge_stmts_app, IH. f_equal.
  exact (edge_stmts_file_stmts _ _ _ _ _ Hf).
Qed.

Lemma edges_follow_files_and_directives_witness :
  edge_stmts [Node "a" None; Edge "a" "b" "back" "red"; Node "b" None] =
  flat_map (file_edges ab_read (nodes (find_nodes [] ab_files))
              (proxy_nodes (find_nodes [] ab_files)))
           (processed [] (folder_to_files (find_nodes [] ab_files))).
Proof.
  apply (edges_follow_files_and_directives [] ab_read ab_files false
           {| strict := false;
              node_attr := [("color", "lightblue2"); ("style", "filled")];
              format := "pdf";
              body := [Node "a" None; Edge "a" "b" "back" "red"; Node "b" None] |}).
  vm_compute. reflexivity.
Defined.

Lemma dict_append_values (d : list (string * list string)) (k v : string) :
  flat_map snd (dict_append d k v) ≡ₚ flat_map snd d ++ [v].
Proof.
  induction d as [|[k' l] d IH]; cbn [dict_append flat_map snd]; [reflexivity|].
  destruct (String.eqb k' k); cbn [flat_map snd].
  - rewrite <- !app_assoc. apply Permutation_app_head, Permutation_app_comm.
  - rewrite IH. now rewrite app_assoc.
Qed.

Lemma folders_values (files : list string) (d : list (string * list string)) :
  flat_map snd (fold_left (λ d p, dict_append d (PosixPath.dirname p) p) files d)
    ≡ₚ flat_map snd d ++ files.
Proof.
  revert d. induction files as [|p files IH]; intros d; cbn [fold_left].
  - now rewrite app_nil_r.
  - rewrite IH, dict_append_values. now rewrite <- app_assoc.
Qed.

Lemma processed_is_filter (groups : list string) (d : list (string * list string)) :
  (∀ k p, (k, p) ∈ dict_pairs d → k = PosixPath.dirname p) →
  processed groups d = uncaptured groups (flat_map snd d).
Proof.
  unfold processed, uncaptured, dict_pairs.
  induction d as [|[k l] d IH]; intros H; cbn [flat_map fst snd]; [reflexivity|].
  rewrite filter_app, <- IH
    by (intros k' p Hp; apply (H k' p); cbn [flat_map]; apply elem_of_app; now right).
  f_equal.
  assert (∀ p, p ∈ l → k = PosixPath.dirname p) as Hl.
  { intros p Hp. apply (H k p). cbn [flat_map fst snd]. apply elem_of_app. left.
    apply list_elem_of_fmap. eauto. }
  clear H IH. induction l as [|p l IHl]; [now destruct (folder_in_group groups k)|].
  rewrite filter_cons, <- (Hl p) by left.
  assert (filter (λ p, folder_in_group groups (PosixPath.dirname p) = false) l
          = if folder_in_group groups k then [] else l) as ->
    by (symmetry; apply IHl; intros; apply Hl; now right).
  destruct (folder_in_group groups k); [now rewrite decide_False|].
  now rewrite decide_True.
Qed.

(** X18: the second loop opens every discovered file of an uncaptured
    folder exactly once: the files it processes are a rearrangement (by
    folder) of the discovered files whose folder starts with no group. *)
Theorem processed_files_are_the_uncaptured_files (groups files : list string) :
  processed groups (folder_to_files (find_nodes groups files))
    ≡ₚ uncaptured groups files.
Proof.
  unfold find_nodes. rewrite find_nodes_folders. cbn [folder_to_files scan_init].
  rewrite processed_is_filter.
  - unfold uncaptured. now rewrite folders_values.
  - intros k p [H|(p' & _ & [= -> ->])]%folders_pairs; [inversion H|reflexivity].
Qed.

(** ** [find_neighbors] *)

Lemma lacks_drop (n : nat) (s : string) (c : ascii) :
  Py.lacks s c = true → Py.lacks (Py.drop n s) c = true.
Proof.
  revert s. induction n as [|n IH]; intros [|a s]; simpl; try reflexivity.
  - intros H. exact H.
  - intros [_ Hs]%andb_true_iff. exact (IH s Hs).
Qed.

Lemma last_close_capture (s : string) (j : nat) :
  Regex.last_close s = Some j → Py.lacks (Py.take j s) Regex.newline = true.
Proof.
  revert j. induction s as [|a s IH]; intros j; cbn [Regex.last_close]; [discriminate|].
  destruct (Ascii.eqb a Regex.newline) eqn:Ha; [discriminate|].
  destruct (Regex.last_close s) as [j'|].
  - intros [= <-]. cbn [Py.take Py.lacks]. now rewrite Ha, (IH j').
  - destruct (Regex.is_close a); [|discriminate]. now intros [= <-].
Qed.

Lemma match_here_capture (s cap : string) (n : nat) :
  Regex.match_here s = Some (cap, n) → Py.lacks cap Regex.newline = true.
Proof.
  unfold Regex.match_here. destruct (Regex.strip_literal _ s) as [r1|]; [|discriminate].
  destruct (Regex.skip_spaces r1) as [[|k] [|a r3]]; try discriminate.
  destruct (Regex.is_open a); [|discriminate].
  destruct (Regex.last_close r3) as [j|] eqn:Hj; [|discriminate].
  intros [= <- _]. exact (last_close_capture _ _ Hj).
Qed.

Lemma findall_capture (s : string) (skip : nat) (cap : string) :
  cap ∈ Regex.findall_from skip s → Py.lacks cap Regex.newline = true.
Proof.
  revert skip. induction s as [|a s IH]; intros skip; cbn [Regex.findall_from];
    [intros H; inversion H|].
  destruct skip as [|k]; [|apply IH].
  destruct (Regex.match_here (String a s)) as [[cap' n]|] eqn:HM; [|apply IH].
  intros [->|H]%elem_of_cons; [exact (match_here_capture _ _ _ HM)|exact (IH _ H)].
Qed.

(** X19: the names [find_neighbors] returns contain neither a separator
    nor a line feed: the captured group stops at the end of the line and the
    normalization drops the directory part of the target. *)
Theorem neighbor_names_are_single_line_base_names (read : string → option string)
    (path : string) (names : list string) (name : string) :
  find_neighbors read path = Some names →
  name ∈ names →
  Py.lacks name PosixPath.sep = true ∧ Py.lacks name Regex.newline = true.
Proof.
  unfold find_neighbors. destruct (read path) as [code|]; cbn [mbind option_bind];
    [|discriminate].
  intros [= <-] (cap & -> & Hcap)%list_elem_of_fmap.
  split; [apply normalize_has_no_separator_aux|].
  unfold filename_normalize, PosixPath.basename, Py.slice_to, Py.slice_from.
  apply lacks_take, lacks_drop. exact (findall_capture _ _ _ Hcap).
Qed.

Lemma neighbor_names_are_single_line_base_names_witness :
  Py.lacks "b" PosixPath.sep = true ∧ Py.lacks "b" Regex.newline = true.
Proof.
  apply (neighbor_names_are_single_line_base_names ab_read "./a.h" ["b"] "b").
  - vm_compute. reflexivity.
  - left.
Defined.

Lemma findall_include_lines (lines : list (ascii * ascii * string)) :
  Forall (λ l, Regex.is_open l.1.1 = true ∧ Regex.is_close l.1.2 = true ∧
               Regex.plain l.2 = true) lines →
  Regex.findall (include_lines lines) = map snd lines.
Proof.
  induction 1 as [|[[open close] name] lines (Ho & Hc & Hn) _ IH]; [reflexivity|].
  cbn [include_lines fold_right fst snd map].
  rewrite (include_line_is_recognized open close name _ Ho Hc Hn). f_equal. exact IH.
Qed.

(** X20: for a file that consists of include lines only, each directive
    alone on its line with a target free of line feeds and closing
    characters, [find_neighbors] returns the normalized targets, one per line
    and in the order of the lines; quoted and angle-bracketed targets are
    treated alike. *)
Theorem neighbors_of_include_lines (read : string → option string) (path : string)
    (lines : list (ascii * ascii * string)) :
  Forall (λ l, Regex.is_open l.1.1 = true ∧ Regex.is_close l.1.2 = true ∧
               Regex.plain l.2 = true) lines →
  read path = Some (include_lines lines) →
  find_neighbors read path = Some (map (λ l, filename_normalize l.2) lines).
Proof.
  intros Hlines Hread. unfold find_neighbors. rewrite Hread.
  cbn [mbind option_bind]. rewrite (findall_include_lines lines Hlines).
  f_equal. now rewrite map_map.
Qed.

Lemma neighbors_of_include_lines_witness :
  find_neighbors (read_from [("./a.c", include_lines angle_and_quoted_lines)]) "./a.c"
  = Some (map (λ l, filename_normalize l.2) angle_and_quoted_lines).
Proof.
  apply (neighbors_of_include_lines
           (read_from [("./a.c", include_lines angle_and_quoted_lines)])
           "./a.c" angle_and_quoted_lines).
  - repeat constructor.
  - vm_compute. reflexivity.
Defined.

(** ** Scanning and grouping together *)

Lemma rstrip_unchanged (s : string) (c : ascii) :
  Py.endswith s c = false → Py.rstrip s c = s.
Proof.
  induction s as [|a s IH]; [reflexivity|]. cbn [Py.endswith Py.rstrip].
  destruct s as [|b s].
  - cbn [Py.rstrip]. now intros ->.
  - intros H. now rewrite (IH H).
Qed.

Lemma rstrip_append_char (s : string) (c : ascii) :
  Py.rstrip (s +:+ String c EmptyString) c = Py.rstrip s c.
Proof.
  induction s as [|a s IH]; cbn [String.append Py.rstrip].
  - now rewrite Ascii.eqb_refl.
  - now rewrite IH.
Qed.

Lemma all_char_endswith (s : string) (c : ascii) :
  s ≠ EmptyString → Py.all_char s c = true → Py.endswith s c = true.
Proof.
  induction s as [|a s IH]; [contradiction|]. intros _.
  cbn [Py.all_char Py.endswith]. intros [Ha Hs]%andb_true_iff.
  destruct s; [exact Ha|]. apply IH; [discriminate|exact Hs].
Qed.

Lemma all_char_append (a b : string) (c : ascii) :
  Py.all_char (a +:+ b) c = Py.all_char a c && Py.all_char b c.
Proof.
  induction a as [|x a IH]; simpl; [reflexivity|]. now rewrite IH, andb_assoc.
Qed.

Lemma scandir_name_not_absolute (name : string) :
  scandir_name name = true → Py.startswith name "/" = false.
Proof.
  unfold scandir_name. intros [_ Hsep]%andb_true_iff.
  destruct name as [|a name]; [reflexivity|]. cbn in Hsep |- *.
  apply andb_true_iff in Hsep as [Ha _]. apply negb_true_iff in Ha.
  change PosixPath.sep with "/"%char in Ha. now rewrite Ha.
Qed.

Lemma join_below (path name : string) :
  path ≠ EmptyString → Py.endswith path PosixPath.sep = false →
  scandir_name name = true →
  PosixPath.join path name = path +:+ String PosixPath.sep name.
Proof.
  intros Hne Hend Hname. unfold PosixPath.join.
  rewrite (scandir_name_not_absolute _ Hname), Hend.
  destruct path; [contradiction|reflexivity].
Qed.

(** The folder of an entry of a directory is the directory. *)
Lemma dirname_below (path name : string) :
  path ≠ EmptyString → Py.endswith path PosixPath.sep = false →
  Py.lacks name PosixPath.sep = true →
  PosixPath.dirname (path +:+ String PosixPath.sep name) = path.
Proof.
  intros Hne Hend Hname. unfold PosixPath.dirname.
  assert (Py.slice_to (path +:+ String PosixPath.sep name)
            (Py.rfind (path +:+ String PosixPath.sep name) PosixPath.sep + 1)
          = path +:+ String PosixPath.sep EmptyString) as ->.
  { unfold Py.slice_to. rewrite rfind_append. cbn [Py.rfind].
    rewrite (rfind_lacks _ _ Hname). change (0 <=? -1)%Z with false. cbn iota.
    rewrite Ascii.eqb_refl. change (0 <=? 0)%Z with true. cbn iota.
    rewrite clip_in_range by (rewrite length_append; cbn [String.length]; lia).
    replace (Z.to_nat (Z.of_nat (String.length path) + 0 + 1))
      with (String.length (path +:+ String PosixPath.sep EmptyString))
      by (rewrite length_append; cbn [String.length]; lia).
    replace (path +:+ String PosixPath.sep name)
      with ((path +:+ String PosixPath.sep EmptyString) +:+ name)
      by (now rewrite PyFacts.append_assoc).
    apply take_append. }
  assert (Py.all_char (path +:+ String PosixPath.sep EmptyString) PosixPath.sep = false)
    as Hall.
  { rewrite all_char_append. destruct (Py.all_char path PosixPath.sep) eqn:E;
      [|reflexivity].
    rewrite (all_char_endswith _ _ Hne E) in Hend. discriminate. }
  rewrite Hall. destruct path; [contradiction|]. cbn [String.append Py.is_empty negb andb].
  change (String a (path +:+ String PosixPath.sep EmptyString))
    with (String a path +:+ String PosixPath.sep EmptyString).
  now rewrite rstrip_append_char, rstrip_unchanged.
Qed.

Lemma found_below_directory (blacklist : list string) (recursive : bool)
    (path : string) (e : entry) (f : string) :
  path ≠ EmptyString → Py.endswith path PosixPath.sep = false →
  scandir_tree e = true →
  f ∈ find_entry blacklist recursive path e →
  Py.startswith (PosixPath.dirname f) path = true.
Proof.
  revert recursive path.
  induction e as [name|name children IH] using entry_nested_ind;
    intros recursive path Hne Hend; cbn [scandir_tree find_entry].
  - intros Hname. rewrite (join_below _ _ Hne Hend Hname).
    case_bool_decide; [|intros Hf; inversion Hf].
    intros ->%list_elem_of_singleton.
    rewrite dirname_below; try assumption.
    + apply PyFacts.startswith_spec. exists EmptyString.
      symmetry. apply PyFacts.append_empty.
    + unfold scandir_name in Hname. now apply andb_true_iff in Hname as [_ Hsep].
  - intros [Hname Hch]%andb_true_iff.
    pose proof (join_scandir_name path name Hname) as Hend'.
    rewrite (join_below _ _ Hne Hend Hname) in *.
    assert (path +:+ String PosixPath.sep name ≠ EmptyString) as Hne'
      by (destruct path; discriminate).
    destruct recursive.
    + case_bool_decide; [intros Hf; inversion Hf|].
      intros (c & Hc & Hf)%list_elem_of_In%in_flat_map.
      apply list_elem_of_In in Hc, Hf. rewrite Forall_forall in IH.
      rewrite forallb_forall in Hch.
      eapply PyFacts.startswith_trans;
        [exact (IH c Hc true _ Hne' Hend' (Hch c (proj1 (list_elem_of_In _ _) Hc)) Hf)|].
      apply PyFacts.startswith_append.
    + case_bool_decide; [|intros Hf; inversion Hf].
      intros ->%list_elem_of_singleton.
      rewrite dirname_below; try assumption.
      * apply PyFacts.startswith_spec. exists EmptyString.
        symmetry. apply PyFacts.append_empty.
      * unfold scandir_name in Hname. now apply andb_true_iff in Hname as [_ Hsep].
Qed.

(** X21: a group given by the name of a directory below the root (without
    trailing separator) captures every file the scanner finds in that
    directory and below it, in both loops: the path and the folder of such a
    file start with the group path, so the file is merged into a proxy and is
    not among the processed files. *)
Theorem files_below_group_directory_are_captured (root d : string)
    (children : list entry) (blacklist groups files : list string) (f : string) :
  scandir_tree (Dir d children) = true →
  PosixPath.join root d ∈ groups →
  f ∈ find_entry blacklist true root (Dir d children) →
  Py.startswith f (PosixPath.join root d) = true ∧
  folder_in_group groups (PosixPath.dirname f) = true ∧
  f ∉ processed groups (folder_to_files (find_nodes groups files)).
Proof.
  intros Htree Hgroup Hf.
  pose proof Htree as [Hname Hch]%andb_true_iff.
  pose proof (join_scandir_name root d Hname) as Hend.
  assert (PosixPath.join root d ≠ EmptyString) as Hne.
  { unfold scandir_name in Hname. apply andb_true_iff in Hname as [Hd _].
    unfold PosixPath.join.
    destruct d as [|a d]; [discriminate Hd|].
    destruct (Py.startswith _ _); [discriminate|].
    destruct (_ || _); destruct root; discriminate. }
  assert (Py.startswith (PosixPath.dirname f) (PosixPath.join root d) = true) as Hdir.
  { cbn [find_entry] in Hf. case_bool_decide; [inversion Hf|].
    apply list_elem_of_In, in_flat_map in Hf as (c & Hc & Hf).
    apply list_elem_of_In in Hf. rewrite forallb_forall in Hch.
    exact (found_below_directory _ _ _ _ _ Hne Hend (Hch c Hc) Hf). }
  split; [now apply PyFacts.startswith_dirname|].
  assert (folder_in_group groups (PosixPath.dirname f) = true) as Hfig
    by (apply folder_in_group_true; eauto).
  split; [exact Hfig|].
  intros [_ E]%processed_find_nodes. congruence.
Qed.

Lemma files_below_group_directory_are_captured_witness :
  Py.startswith "./lib/x.c" (PosixPath.join "." "lib") = true ∧
  folder_in_group ["./lib"] (PosixPath.dirname "./lib/x.c") = true ∧
  "./lib/x.c" ∉ processed ["./lib"] (folder_to_files (find_nodes ["./lib"] lib_files)).
Proof.
  apply (files_below_group_directory_are_captured "." "lib" [File "x.c"; File "y.h"]
           [] ["./lib"] lib_files "./lib/x.c").
  - vm_compute. reflexivity.
  - vm_compute. left.
  - vm_compute. left.
Defined.
